(** * Menu service: a model of [server.js] and its properties

    The service keeps an in-memory array of menu items and an id counter,
    validates write payloads with express-validator chains, and answers
    list / get / create / update / delete requests.

    The development has four layers:
    - [JS]: the JavaScript values and built-ins the handlers rely on;
    - [Validator]: the string predicates and converters of validator.js
      that the chains call;
    - [ExpressValidator]: how a validation chain runs over a request body;
    - [Server]: the store, the validators and the route handlers, followed
      by the properties of the service.

    Numbers.  A JavaScript number is modelled as an exact decimal
    [m * 10^e], or NaN, or an infinity; binary rounding is not modelled.
    Item ids are only ever produced by the seed data and by the counter
    [nextId], so the [id] field is an integer.

    Strings.  A JavaScript string is modelled as a [string] whose
    characters are the code units 0..255.

    Exceptions.  Printing a value can throw a TypeError (an object of the
    body that carries a property named toString hides the method every
    object inherits); a function that can throw returns an [option], and
    [None] is the exception.  A request that throws on its way through
    the middlewares is answered by the error handler at the end of
    [server.js]. *)

From stdpp Require Import gmap strings list sorting.
From Stdlib Require Import ZArith Ascii String DecimalString DecimalPos.

#[local] Set Warnings "-register-all".
#[local] Open Scope Z_scope.

(* ================================================================== *)
(** * JavaScript values and built-ins *)
(* ================================================================== *)

Module JS.

(** [Dec m e] denotes [m * 10^e]. *)
Inductive number : Type :=
| NaN
| Infinity (negative : bool)
| Dec (m e : Z).

Inductive value : Type :=
| VUndefined
| VNull
| VBool (b : bool)
| VNum (n : number)
| VStr (s : string)
| VArr (l : list value)
| VObj (props : list (string * value)).

(** A request body is an object with string keys; [get] is property
    access, which yields [undefined] for a property the object does not
    have. *)
Definition get (k : string) (o : gmap string value) : value :=
  default VUndefined (o !! k).

(** An object met as the value of a field lists its own properties in
    the order [Object.getOwnPropertyNames] gives them. *)
Definition own (k : string) (props : list (string * value)) : option value :=
  snd <$> List.find (λ kv, bool_decide (kv.1 = k)) props.

Definition names (props : list (string * value)) : list string := props.*1.

Definition of_Z (z : Z) : number := Dec z 0.

(** Numeric comparison; [None] when either side is NaN. *)
Definition num_compare (a b : number) : option comparison :=
  match a, b with
  | NaN, _ | _, NaN => None
  | Infinity s1, Infinity s2 =>
      Some (match s1, s2 with
            | true, false => Lt
            | false, true => Gt
            | _, _ => Eq
            end)
  | Infinity s, Dec _ _ => Some (if s then Lt else Gt)
  | Dec _ _, Infinity s => Some (if s then Gt else Lt)
  | Dec m1 e1, Dec m2 e2 =>
      let e := Z.min e1 e2 in
      Some (m1 * 10 ^ (e1 - e) ?= m2 * 10 ^ (e2 - e))
  end.

(** [a === b] on numbers. *)
Definition strict_equal (a b : number) : bool :=
  match num_compare a b with Some Eq => true | _ => false end.

(** [a > b] on numbers. *)
Definition greater (a b : number) : bool :=
  match num_compare a b with Some Gt => true | _ => false end.

(** The number is finite and has no fractional part. *)
Definition is_integer (n : number) : bool :=
  match n with
  | Dec m e => (0 <=? e) || (m mod 10 ^ (- e) =? 0)
  | _ => false
  end.

(** [!!v] *)
Definition truthy (v : value) : bool :=
  match v with
  | VUndefined | VNull => false
  | VBool b => b
  | VNum NaN => false
  | VNum (Dec m _) => negb (m =? 0)
  | VNum (Infinity _) => true
  | VStr s => negb (bool_decide (s = ""))
  | VArr _ | VObj _ => true
  end.

(** ** Strings *)

(** White space and line terminators among the code units 0..255. *)
Definition is_white_space (c : ascii) : bool :=
  match c with
  | "009" | "010" | "011" | "012" | "013" | " " | "160" => true
  | _ => false
  end%char.

Fixpoint trimStart (s : string) : string :=
  match s with
  | String c s' => if is_white_space c then trimStart s' else s
  | EmptyString => EmptyString
  end.

Fixpoint trimEnd (s : string) : string :=
  match s with
  | String c s' =>
      match trimEnd s' with
      | EmptyString => if is_white_space c then EmptyString else String c EmptyString
      | t => String c t
      end
  | EmptyString => EmptyString
  end.

(** [s.trim()] *)
Definition trim (s : string) : string := trimEnd (trimStart s).

Definition is_digit (c : ascii) : bool :=
  match Ascii.is_nat c with Some _ => true | None => false end.

(** The longest prefix of decimal digits, and what follows it. *)
Fixpoint span_digits (s : string) : string * string :=
  match s with
  | String c s' =>
      if is_digit c
      then let (d, r) := span_digits s' in (String c d, r)
      else (EmptyString, s)
  | EmptyString => (EmptyString, EmptyString)
  end.

Fixpoint all_digits (s : string) : bool :=
  match s with
  | String c s' => is_digit c && all_digits s'
  | EmptyString => true
  end.

Fixpoint digits_value (acc : Z) (s : string) : Z :=
  match s with
  | String c s' =>
      digits_value (10 * acc + Z.of_nat (default 0%nat (Ascii.is_nat c))) s'
  | EmptyString => acc
  end.

Fixpoint repeat_zero (n : nat) : string :=
  match n with
  | O => EmptyString
  | S n' => String "0" (repeat_zero n')
  end.

Fixpoint drop_zeros (s : string) : string :=
  match s with
  | String "0" s' => drop_zeros s'
  | _ => s
  end.

Fixpoint take_chars (n : nat) (s : string) : string :=
  match n, s with
  | S n', String c s' => String c (take_chars n' s')
  | _, _ => EmptyString
  end.

Fixpoint drop_chars (n : nat) (s : string) : string :=
  match n, s with
  | S n', String _ s' => drop_chars n' s'
  | _, _ => s
  end.

Definition digits_of_pos (p : positive) : string :=
  NilZero.string_of_uint (Pos.to_uint p).

(** ** Number to string: [String(n)] *)

(** The digits [ds] (no trailing zero, [k] of them) and the position [n]
    of the decimal point, as in Number::toString:
    the value is [0.ds * 10^n]. *)
Definition number_to_string (x : number) : string :=
  match x with
  | NaN => "NaN"
  | Infinity false => "Infinity"
  | Infinity true => "-Infinity"
  | Dec 0 _ => "0"
  | Dec m e =>
      let sign := if m <? 0 then "-" else "" in
      let all := digits_of_pos (Z.to_pos (Z.abs m)) in
      let ds := String.rev (drop_zeros (String.rev all)) in
      let k := Z.of_nat (String.length ds) in
      let n := Z.of_nat (String.length all) + e in
      sign +:+
      (if (k <=? n) && (n <=? 21) then
         ds +:+ repeat_zero (Z.to_nat (n - k))
       else if (0 <? n) && (n <=? 21) then
         take_chars (Z.to_nat n) ds +:+ "." +:+ drop_chars (Z.to_nat n) ds
       else if (-6 <? n) && (n <=? 0) then
         "0." +:+ repeat_zero (Z.to_nat (- n)) +:+ ds
       else
         let ex := n - 1 in
         let exs := (if ex <? 0 then "-" else "+")
                    +:+ digits_of_pos (Z.to_pos (Z.abs ex)) in
         if k =? 1 then ds +:+ "e" +:+ exs
         else take_chars 1 ds +:+ "." +:+ drop_chars 1 ds +:+ "e" +:+ exs)
  end.

(** ** String to number: [parseFloat(s)] *)

(** The exponent part [e±ddd] at the head of [s], if there is one. *)
Definition exponent_part (s : string) : option (Z * string) :=
  match s with
  | String c s' =>
      if bool_decide (c = "e"%char) || bool_decide (c = "E"%char) then
        let '(neg, s'') :=
          match s' with
          | String "-" t => (true, t)
          | String "+" t => (false, t)
          | _ => (false, s')
          end in
        let (d, r) := span_digits s'' in
        if bool_decide (d = "") then None
        else Some (if neg then - digits_value 0 d else digits_value 0 d, r)
      else None
  | EmptyString => None
  end.

Definition starts_with (p s : string) : bool :=
  bool_decide (take_chars (String.length p) s = p).

(** [parseFloat] reads the longest prefix that is a decimal literal,
    after leading white space. *)
Definition parseFloat (s : string) : number :=
  let s0 := trimStart s in
  let '(neg, s1) :=
    match s0 with
    | String "-" t => (true, t)
    | String "+" t => (false, t)
    | _ => (false, s0)
    end in
  if starts_with "Infinity" s1 then Infinity neg
  else
    let (int, s2) := span_digits s1 in
    let (frac, s3) :=
      match s2 with
      | String "." t => span_digits t
      | _ => (EmptyString, s2)
      end in
    if bool_decide (int = "") && bool_decide (frac = "") then NaN
    else
      let m := digits_value 0 (int +:+ frac) in
      let ex := match exponent_part s3 with Some (x, _) => x | None => 0 end in
      Dec (if neg then - m else m) (ex - Z.of_nat (String.length frac)).

(** ** String to number: [Number(s)] *)

Definition digit_value (c : ascii) : option Z :=
  let n := Z.of_nat (nat_of_ascii c) in
  if (48 <=? n) && (n <=? 57) then Some (n - 48)
  else if (97 <=? n) && (n <=? 102) then Some (n - 87)
  else if (65 <=? n) && (n <=? 70) then Some (n - 55)
  else None.

(** The value of a non-empty run of digits in the given radix. *)
Fixpoint radix_value (radix acc : Z) (s : string) : option Z :=
  match s with
  | String c s' =>
      match digit_value c with
      | Some d =>
          if d <? radix then
            match s' with
            | EmptyString => Some (radix * acc + d)
            | _ => radix_value radix (radix * acc + d) s'
            end
          else None
      | None => None
      end
  | EmptyString => None
  end.

(** [0x], [0o] and [0b] integer literals. *)
Definition non_decimal (s : string) : option Z :=
  match s with
  | String "0" (String c t) =>
      if bool_decide (c = "x"%char) || bool_decide (c = "X"%char)
      then radix_value 16 0 t
      else if bool_decide (c = "o"%char) || bool_decide (c = "O"%char)
      then radix_value 8 0 t
      else if bool_decide (c = "b"%char) || bool_decide (c = "B"%char)
      then radix_value 2 0 t
      else None
  | _ => None
  end.

(** [Number(s)]: the whole string, white space at both ends apart, must
    be a numeric literal; the empty string is 0. *)
Definition Number (s : string) : number :=
  let t := trim s in
  if bool_decide (t = "") then Dec 0 0
  else
    match non_decimal t with
    | Some n => Dec n 0
    | None =>
        let '(neg, s1) :=
          match t with
          | String "-" u => (true, u)
          | String "+" u => (false, u)
          | _ => (false, t)
          end in
        if bool_decide (s1 = "Infinity") then Infinity neg
        else
          let (int, s2) := span_digits s1 in
          let (frac, s3) :=
            match s2 with
            | String "." u => span_digits u
            | _ => (EmptyString, s2)
            end in
          let (ex, s4) :=
            match exponent_part s3 with
            | Some (x, r) => (x, r)
            | None => (0, s3)
            end in
          if bool_decide (int = "") && bool_decide (frac = "") then NaN
          else if bool_decide (s4 = "") then
            let m := digits_value 0 (int +:+ frac) in
            Dec (if neg then - m else m) (ex - Z.of_nat (String.length frac))
          else NaN
    end.

(** ** Value to string: [String(v)] *)

(** [Array.prototype.join] with a comma, given how an element prints. *)
Fixpoint join_comma (elem : value → option string) (l : list value)
  : option string :=
  match l with
  | [] => Some ""
  | x :: l' =>
      match l' with
      | [] => elem x
      | _ :: _ => s ← elem x; t ← join_comma elem l'; Some (s +:+ "," +:+ t)
      end
  end.

(** [None] is a TypeError.  An object is printed by the [toString] it
    has: the inherited method unless an own property of that name hides
    it, and a value that came out of JSON is never callable, so an own
    [toString] leaves nothing to call ([valueOf] gives back the object,
    which is no primitive value).  In an array, null and undefined
    elements print as the empty string. *)
Fixpoint to_string (v : value) : option string :=
  match v with
  | VUndefined => Some "undefined"
  | VNull => Some "null"
  | VBool true => Some "true"
  | VBool false => Some "false"
  | VNum n => Some (number_to_string n)
  | VStr s => Some s
  | VArr l =>
      join_comma (λ x, match x with
                       | VUndefined | VNull => Some ""
                       | _ => to_string x
                       end) l
  | VObj props =>
      match own "toString" props with
      | Some _ => None
      | None => Some "[object Object]"
      end
  end.

(** Whether printing [v] can meet an object that hides the inherited
    [toString]: [v] is such an object, or an array that holds one at
    some depth. *)
Fixpoint hides_toString (v : value) : bool :=
  match v with
  | VArr l => existsb hides_toString l
  | VObj props => bool_decide (is_Some (own "toString" props))
  | _ => false
  end.

End JS.

(* ================================================================== *)
(** * validator.js: predicates and converters on strings *)
(* ================================================================== *)

Module Validator.
Import JS.

(** [isLength(str, {min})] *)
Definition isLength (min : nat) (str : string) : bool :=
  bool_decide (min ≤ String.length str)%nat.

(** The pattern of [isFloat]: an optional sign, digits if any, then
    optionally a point with the digits after it if any, then optionally
    an exponent (e or E, an optional sign, one digit or more), and
    nothing after that. *)
Definition float_test (str : string) : bool :=
  let s1 :=
    match str with
    | String "-" t | String "+" t => t
    | _ => str
    end in
  let s2 := snd (span_digits s1) in
  let s3 :=
    match s2 with
    | String "." t => snd (span_digits t)
    | _ => s2
    end in
  let s4 :=
    match exponent_part s3 with
    | Some (_, r) => r
    | None => s3
    end in
  bool_decide (s4 = "").

(** [str.replace(',', '.')]: the first comma only. *)
Fixpoint replace_comma (s : string) : string :=
  match s with
  | String "," t => String "." t
  | String c t => String c (replace_comma t)
  | EmptyString => EmptyString
  end.

(** [isFloat(str, {gt})]; [gt = None] when the option is not given. *)
Definition isFloat (gt : option number) (str : string) : bool :=
  if bool_decide (str ∈ [""; "."; ","; "-"; "+"]) then false
  else
    let value := parseFloat (replace_comma str) in
    float_test str
    && match gt with
       | Some bound => greater value bound
       | None => true
       end.

(** [toFloat(str)] *)
Definition toFloat (str : string) : number :=
  if isFloat None str then parseFloat str else NaN.

(** [isIn(str, options)] *)
Definition isIn (options : list string) (str : string) : bool :=
  bool_decide (str ∈ options).

(** [isBoolean(str)], not loose. *)
Definition isBoolean (str : string) : bool :=
  bool_decide (str ∈ ["true"; "false"; "1"; "0"]).

Definition to_lower (c : ascii) : ascii :=
  let n := nat_of_ascii c in
  if ((65 <=? n) && (n <=? 90))%nat then ascii_of_nat (n + 32) else c.

Fixpoint lower (s : string) : string :=
  match s with
  | String c t => String (to_lower c) (lower t)
  | EmptyString => EmptyString
  end.

(** [toBoolean(str)], not strict:
    [str !== '0' && !/^false$/i.test(str) && str !== ''] *)
Definition toBoolean (str : string) : bool :=
  negb (bool_decide (str = "0"))
  && negb (bool_decide (lower str = "false"))
  && negb (bool_decide (str = "")).

End Validator.

(* ================================================================== *)
(** * express-validator: running a validation chain over a body *)
(* ================================================================== *)

Module ExpressValidator.
Import JS.

(** The library's own [toString], applied to a value before a validator.js
    function sees it; [None] when it throws.  An array or an object with
    a truthy [toString] prints through it, or as the list of its property
    names when that [toString] is no function (an own property read from
    JSON never is); an object whose own [toString] is falsy falls through
    to [isNaN(value)], which throws as the object has nothing to convert
    it. *)
Definition toString (v : value) : option string :=
  match v with
  | VUndefined | VNull | VNum NaN => Some ""
  | VObj props =>
      match own "toString" props with
      | Some f =>
          if truthy f then Some (String.concat "," (names props)) else None
      | None => Some "[object Object]"
      end
  | _ => to_string v
  end.

(** The entries of a chain.  A custom validation sees the value as it
    is; a standard validation and a sanitizer see strings, and for an
    array they see each element in turn. *)
Inductive context_item : Type :=
| CustomValidation (validator : value → bool) (message : string)
| StandardValidation (validator : string → bool) (message : string)
| Sanitization (sanitizer : string → value).

Record validation_chain : Type := {
  field : string;
  optional_ : bool;
  stack : list context_item
}.

Record validation_error : Type := {
  path : string;
  msg : string
}.

(** ** The chain API *)

Definition body (f : string) : validation_chain :=
  {| field := f; optional_ := false; stack := [] |}.

Definition add (it : context_item) (c : validation_chain) : validation_chain :=
  {| field := field c; optional_ := optional_ c; stack := stack c ++ [it] |}.

Definition custom (f : value → bool) := add (CustomValidation f "Invalid value").
Definition standard (f : string → bool) := add (StandardValidation f "Invalid value").

(** [.exists()] and [.exists({checkFalsy: true})] *)
Definition exists_ (checkFalsy : bool) : validation_chain → validation_chain :=
  custom (if checkFalsy then truthy
          else λ v, match v with VUndefined => false | _ => true end).

(** [.isString()]: [typeof value === 'string'] *)
Definition isString : validation_chain → validation_chain :=
  custom (λ v, match v with VStr _ => true | _ => false end).

(** [.isArray({min})]: [Array.isArray(value) && value.length >= min] *)
Definition isArray (min : nat) : validation_chain → validation_chain :=
  custom (λ v, match v with
               | VArr l => bool_decide (min ≤ List.length l)%nat
               | _ => false
               end).

Definition isLength (min : nat) := standard (Validator.isLength min).
Definition isFloat (gt : option number) := standard (Validator.isFloat gt).
Definition isIn (options : list string) := standard (Validator.isIn options).
Definition isBoolean := standard Validator.isBoolean.
Definition toFloat := add (Sanitization (λ s, VNum (Validator.toFloat s))).
Definition toBoolean := add (Sanitization (λ s, VBool (Validator.toBoolean s))).

(** [.optional()]: the chain is skipped when the field is [undefined]. *)
Definition optional (c : validation_chain) : validation_chain :=
  {| field := field c; optional_ := true; stack := stack c |}.

(** [.withMessage(m)] sets the message of the last validator. *)
Definition withMessage (m : string) (c : validation_chain) : validation_chain :=
  let set it :=
    match it with
    | CustomValidation f _ => CustomValidation f m
    | StandardValidation f _ => StandardValidation f m
    | Sanitization f => Sanitization f
    end in
  {| field := field c; optional_ := optional_ c;
     stack := match reverse (stack c) with
              | it :: before => reverse before ++ [set it]
              | [] => []
              end |}.

(** ** Running a chain *)

(** The messages an entry adds and the value it leaves; [None] when
    printing the value throws, which ends the chain. *)
Definition run_item (it : context_item) (v : value)
  : option (list string * value) :=
  match it with
  | CustomValidation f m => Some (if f v then [] else [m], v)
  | StandardValidation f m =>
      let values := match v with VArr l => l | _ => [v] end in
      strs ← mapM toString values;
      Some (flat_map (λ s, if f s then [] else [m]) strs, v)
  | Sanitization f =>
      match v with
      | VArr l => strs ← mapM toString l; Some ([], VArr (map f strs))
      | _ => s ← toString v; Some ([], f s)
      end
  end.

(** Every entry runs, whether or not an earlier one failed; a sanitizer
    changes the value the later entries see. *)
Fixpoint run_stack (items : list context_item) (v : value)
  : option (list string * value) :=
  match items with
  | [] => Some ([], v)
  | it :: rest =>
      r1 ← run_item it v;
      r2 ← run_stack rest r1.2;
      Some (r1.1 ++ r2.1, r2.2)
  end.

Definition is_undefined (v : value) : bool :=
  match v with VUndefined => true | _ => false end.

(** The messages a chain produces for the value of its field, and the
    value it leaves; an optional chain does nothing on [undefined]. *)
Definition chain_result (c : validation_chain) (v : value)
  : option (list string * value) :=
  if optional_ c && is_undefined v then Some ([], v)
  else run_stack (stack c) v.

(** The two parts of the result of a chain that ran to its end. *)
Definition messages (c : validation_chain) (v : value) : list string :=
  default [] (fst <$> chain_result c v).

Definition sanitized (c : validation_chain) (v : value) : value :=
  default v (snd <$> chain_result c v).

(** One chain as a middleware: the errors it adds, and the body with the
    value written back (a field that was and stays [undefined] is not
    created).  When the chain throws, the middleware hands the exception
    to [next]. *)
Definition run (c : validation_chain) (b : gmap string value)
  : option (list validation_error * gmap string value) :=
  let v := get (field c) b in
  r ← chain_result c v;
  Some (map (λ m, {| path := field c; msg := m |}) r.1,
        if is_undefined v && is_undefined r.2 then b else <[field c := r.2]> b).

(** The chains run in order, up to the first that throws;
    [validationResult(req)] is the list of all their errors. *)
Fixpoint run_all (cs : list validation_chain) (b : gmap string value)
  : option (list validation_error * gmap string value) :=
  match cs with
  | [] => Some ([], b)
  | c :: rest =>
      r1 ← run c b;
      r2 ← run_all rest r1.2;
      Some (r1.1 ++ r2.1, r2.2)
  end.

End ExpressValidator.

(* ================================================================== *)
(** * The menu service *)
(* ================================================================== *)

Module Server.
Import JS ExpressValidator.

(** ** The store *)

Record item : Type := {
  id : Z;
  name : string;
  description : string;
  price : value;
  category : value;
  ingredients : value;
  available : bool
}.

(** The two module-level variables [menu] and [nextId]. *)
Record state : Type := {
  menu : list item;
  nextId : Z
}.

(** The sample data the process starts with. *)
Definition seed : state :=
  {| nextId := 3;
     menu :=
       [ {| id := 1;
            name := "Classic Burger";
            description := "Beef patty with lettuce, tomato, cheese, sesame bun";
            price := VNum (Dec 1299 (-2));
            category := VStr "entree";
            ingredients :=
              VArr [VStr "beef"; VStr "lettuce"; VStr "tomato";
                    VStr "cheese"; VStr "bun"];
            available := true |};
         {| id := 2;
            name := "Chocolate Lava Cake";
            description := "Warm cake with molten center + vanilla ice cream";
            price := VNum (Dec 75 (-1));
            category := VStr "dessert";
            ingredients :=
              VArr [VStr "flour"; VStr "cocoa"; VStr "eggs";
                    VStr "sugar"; VStr "butter"];
            available := true |} ] |}.

(** ** Responses *)

Inductive json : Type :=
| JMenu (items : list item)
| JItem (it : item)
| JError (error : string)
| JErrors (errors : list (string * string)).

Record response : Type := {
  status : Z;
  payload : json
}.

Definition not_found : response :=
  {| status := 404; payload := JError "Menu item not found" |}.

(** What the global error handler answers when a middleware or a
    handler throws. *)
Definition internal_error : response :=
  {| status := 500; payload := JError "Internal server error" |}.

(** What the last middleware answers when no route took the request. *)
Definition route_not_found : response :=
  {| status := 404; payload := JError "Route not found" |}.

(** ** Validation *)

#[local] Notation "c '.>' f" := (f c)
  (at level 45, left associativity, only parsing).

Definition menuValidators : list validation_chain :=
  [ body "name"
      .> exists_ true .> withMessage "name required"
      .> isString .> withMessage "name must be a string"
      .> isLength 3 .> withMessage "name min 3 chars";
    body "description"
      .> exists_ true .> withMessage "description required"
      .> isString .> withMessage "description must be a string"
      .> isLength 10 .> withMessage "description min 10 chars";
    body "price"
      .> exists_ false .> withMessage "price required"
      .> isFloat (Some (of_Z 0)) .> withMessage "price must be number > 0"
      .> toFloat;
    body "category"
      .> exists_ true .> withMessage "category required"
      .> isString .> withMessage "category must be string"
      .> isIn ["appetizer"; "entree"; "dessert"; "beverage"]
      .> withMessage "category must be appetizer, entree, dessert or beverage";
    body "ingredients"
      .> exists_ false .> withMessage "ingredients required"
      .> isArray 1
      .> withMessage "ingredients must be array with at least 1 item";
    body "available"
      .> optional
      .> isBoolean .> withMessage "available must be boolean"
      .> toBoolean ].

(** [handleValidation]: [Some] response when the request stops here,
    [None] when it goes on to the handler ([next()]). *)
Definition handleValidation (errors : list validation_error) : option response :=
  match errors with
  | [] => None
  | _ :: _ =>
      Some {| status := 400;
              payload := JErrors (map (λ e, (path e, msg e)) errors) |}
  end.

(** ** Routes *)

(** [m.id === id] *)
Definition has_id (n : number) (m : item) : Prop :=
  strict_equal (of_Z (id m)) n = true.

#[global] Instance has_id_dec n m : Decision (has_id n m).
Proof. unfold has_id. apply _. Defined.

(** GET /api/menu *)
Definition get_all (st : state) : state * response :=
  (st, {| status := 200; payload := JMenu (menu st) |}).

(** GET /api/menu/:id, from the number [n] the path id was coerced to *)
Definition get_item (n : number) (st : state) : state * response :=
  match list_find (has_id n) (menu st) with
  | None => (st, not_found)
  | Some (_, it) => (st, {| status := 200; payload := JItem it |})
  end.

Definition get_by_id (param : string) (st : state) : state * response :=
  get_item (Number param) st.

(** The handler of POST /api/menu, reached after validation.
    [nextId++] is evaluated before [name.trim()], which throws when
    [name] is not a string. *)
Definition create (b : gmap string value) (st : state) : state * response :=
  let st1 := {| menu := menu st; nextId := nextId st + 1 |} in
  match get "name" b, get "description" b with
  | VStr name_, VStr description_ =>
      let newItem :=
        {| id := nextId st;
           name := trim name_;
           description := trim description_;
           price := get "price" b;
           category := get "category" b;
           ingredients := get "ingredients" b;
           available :=
             match get "available" b with
             | VBool a => a
             | _ => true
             end |} in
      ({| menu := menu st1 ++ [newItem]; nextId := nextId st1 |},
       {| status := 201; payload := JItem newItem |})
  | _, _ => (st1, internal_error)
  end.

(** POST /api/menu: the validators, [handleValidation], the handler.  A
    validator that throws sends the request to the error handler. *)
Definition post (b : gmap string value) (st : state) : state * response :=
  match run_all menuValidators b with
  | None => (st, internal_error)
  | Some (errors, b') =>
      match handleValidation errors with
      | Some r => (st, r)
      | None => create b' st
      end
  end.

(** The handler of PUT /api/menu/:id, reached after validation, from the
    number [n] the path id was coerced to. *)
Definition update_item (n : number) (b : gmap string value) (st : state)
  : state * response :=
  match list_find (has_id n) (menu st) with
  | None => (st, not_found)
  | Some (idx, old) =>
      match get "name" b, get "description" b with
      | VStr name_, VStr description_ =>
          let updated :=
            {| id := id old;
               name := trim name_;
               description := trim description_;
               price := get "price" b;
               category := get "category" b;
               ingredients := get "ingredients" b;
               available :=
                 match get "available" b with
                 | VBool a => a
                 | _ => available old
                 end |} in
          ({| menu := <[idx := updated]> (menu st); nextId := nextId st |},
           {| status := 200; payload := JItem updated |})
      | _, _ => (st, internal_error)
      end
  end.

Definition update (param : string) (b : gmap string value) (st : state)
  : state * response :=
  update_item (Number param) b st.

(** PUT /api/menu/:id *)
Definition put (param : string) (b : gmap string value) (st : state)
  : state * response :=
  match run_all menuValidators b with
  | None => (st, internal_error)
  | Some (errors, b') =>
      match handleValidation errors with
      | Some r => (st, r)
      | None => update param b' st
      end
  end.

(** DELETE /api/menu/:id, from the number [n] the path id was coerced to *)
Definition delete_item (n : number) (st : state) : state * response :=
  match list_find (has_id n) (menu st) with
  | None => (st, not_found)
  | Some (idx, deleted) =>
      ({| menu := delete idx (menu st); nextId := nextId st |},
       {| status := 200; payload := JItem deleted |})
  end.

Definition delete_by_id (param : string) (st : state) : state * response :=
  delete_item (Number param) st.

(** What validation makes of a body: the errors [validationResult]
    holds, or [None] when a validator throws. *)
Definition validation (b : gmap string value) : option (list validation_error) :=
  fst <$> run_all menuValidators b.

(** The body the handler sees: the request body after the sanitizers. *)
Definition sanitize (b : gmap string value) : gmap string value :=
  default b (snd <$> run_all menuValidators b).

(** A body passes validation when the chains run to the end and report
    no error. *)
Definition valid (b : gmap string value) : Prop :=
  validation b = Some [].

#[global] Instance valid_dec b : Decision (valid b).
Proof.
  unfold valid. destruct (validation b) as [[|e es]|];
    [by left|by right|by right].
Defined.

(** The fields a payload must carry. *)
Definition required : list string :=
  ["name"; "description"; "price"; "category"; "ingredients"].

(** The field constraints of the data model, on a stored item. *)
Definition name_ok (m : item) : bool :=
  bool_decide (3 ≤ String.length (name m))%nat.

Definition description_ok (m : item) : bool :=
  bool_decide (10 ≤ String.length (description m))%nat.

Definition price_ok (m : item) : bool :=
  match price m with
  | VNum n => greater n (of_Z 0)
  | _ => false
  end.

Definition category_ok (m : item) : bool :=
  match category m with
  | VStr s => bool_decide (s ∈ ["appetizer"; "entree"; "dessert"; "beverage"])
  | _ => false
  end.

Definition ingredients_ok (m : item) : bool :=
  match ingredients m with
  | VArr l => bool_decide (1 ≤ List.length l)%nat
  | _ => false
  end.

Definition meets_constraints (m : item) : bool :=
  name_ok m && description_ok m && price_ok m
  && category_ok m && ingredients_ok m.

(** ** Requests and runs *)

(** A request is one of the five routes, with its path id and its body
    as [express.json()] parsed it; or a request that [express.json()] or
    the router could not read (a body that is no JSON object or array, a
    broken escape in the path), which goes to the error handler; or a
    request no route takes. *)
Inductive request : Type :=
| GET_menu
| GET_menu_id (param : string)
| POST_menu (b : gmap string value)
| PUT_menu_id (param : string) (b : gmap string value)
| DELETE_menu_id (param : string)
| Unparsable
| Unrouted.

Definition handle (r : request) (st : state) : state * response :=
  match r with
  | GET_menu => get_all st
  | GET_menu_id p => get_by_id p st
  | POST_menu b => post b st
  | PUT_menu_id p b => put p b st
  | DELETE_menu_id p => delete_by_id p st
  | Unparsable => (st, internal_error)
  | Unrouted => (st, route_not_found)
  end.

(** The state after a sequence of requests, and the responses given. *)
Fixpoint run_requests (rs : list request) (st : state) : state * list response :=
  match rs with
  | [] => (st, [])
  | r :: rest =>
      let (st1, resp) := handle r st in
      let (st2, resps) := run_requests rest st1 in
      (st2, resp :: resps)
  end.

(** The ids of the stored items, in order. *)
Definition ids (st : state) : list Z := id <$> menu st.

(** The id a response hands out: that of the item a 201 carries. *)
Definition created (r : response) : list Z :=
  match payload r with
  | JItem it => if status r =? 201 then [id it] else []
  | _ => []
  end.

(** All ids assigned up to the end of a run that gave [resps]: those of
    the seed and those of the items created. *)
Definition assigned (resps : list response) : list Z :=
  ids seed ++ flat_map created resps.

Definition max_id (l : list Z) : Z := foldr Z.max 0 l.

(** Stored ids are pairwise distinct, positive and below the counter. *)
Definition invariant (st : state) : Prop :=
  NoDup (ids st) ∧ Forall (λ z, 0 < z < nextId st) (ids st) ∧ 0 < nextId st.

(** The decimal numeral of an id, as it appears in a path. *)
Definition numeral (z : Z) : string := digits_of_pos (Z.to_pos z).

(** ** Sample payloads *)

Definition veggie_wrap : gmap string value :=
  {[ "name" := VStr "Veggie Wrap";
     "description" := VStr "Grilled veggies in a wrap";
     "price" := VNum (Dec 85 (-1));
     "category" := VStr "entree";
     "ingredients" := VArr [VStr "lettuce"; VStr "pepper"] ]}.

Definition five_violations : gmap string value :=
  {[ "name" := VStr "Hi";
     "description" := VStr "short";
     "price" := VNum (Dec (-1) 0);
     "category" := VStr "snack";
     "ingredients" := VArr [] ]}.

(** A name of three characters, two of them trailing blanks. *)
Definition padded_name : gmap string value :=
  <["name" := VStr "a  "]> veggie_wrap.

(** [available] given as the string "false". *)
Definition available_false_string : gmap string value :=
  <["available" := VStr "false"]> veggie_wrap.

(** A name that is an object whose [toString] is [null], and no price. *)
Definition name_hides_toString : gmap string value :=
  {[ "name" := VObj [("toString", VNull)];
     "description" := VStr "Grilled veggies in a wrap";
     "category" := VStr "entree";
     "ingredients" := VArr [VStr "lettuce"; VStr "pepper"] ]}.

End Server.

(* ================================================================== *)
(** * Properties *)
(* ================================================================== *)

(** From "no error" to the conditions the validators tested. *)
Ltac passed :=
  repeat match goal with
  | H : _ ++ _ = [] |- _ => apply app_eq_nil in H as [? ?]
  | H : (if ?c then [] else _ :: _) = [] |- _ =>
      destruct c eqn:?; [clear H|discriminate H]
  | H : _ :: _ = [] |- _ => discriminate H
  end.

(** Runs a chain on a value whose shape is known, with a case for each
    value that is printed on the way. *)
Ltac ran H :=
  cbn -[ExpressValidator.toString] in H;
  repeat match type of H with
  | context [mapM ExpressValidator.toString ?l] =>
      destruct (mapM ExpressValidator.toString l) eqn:?;
      cbn -[ExpressValidator.toString] in H
  | context [ExpressValidator.toString ?v] =>
      destruct (ExpressValidator.toString v) eqn:?;
      cbn -[ExpressValidator.toString] in H
  end;
  try discriminate H.

(** Case analysis on the value [v] of a field whose chain gave no error. *)
Ltac by_field H v :=
  revert H; destruct v; intros H; ran H;
  try (injection H as H ?; passed).

(** ** Numbers *)

Section numbers.
Import JS.

Lemma strict_equal_of_Z (a b : Z) :
  strict_equal (of_Z a) (of_Z b) = bool_decide (a = b).
Proof.
  unfold strict_equal, of_Z, num_compare. cbn. rewrite !Z.mul_1_r.
  destruct (Z.compare_spec a b); case_bool_decide; try done; lia.
Qed.

(** A number equals at most one integer. *)
Lemma strict_equal_of_Z_inj (a b : Z) (n : number) :
  strict_equal (of_Z a) n = true → strict_equal (of_Z b) n = true → a = b.
Proof.
  unfold strict_equal, of_Z. destruct n as [|[]|m e]; cbn; try done.
  destruct (Z.compare_spec (a * 10 ^ (0 - 0 `min` e)) (m * 10 ^ (e - 0 `min` e)))
    as [Ha| |]; try done.
  destruct (Z.compare_spec (b * 10 ^ (0 - 0 `min` e)) (m * 10 ^ (e - 0 `min` e)))
    as [Hb| |]; try done.
  intros _ _. rewrite <- Hb in Ha.
  apply Z.mul_cancel_r in Ha; [done|].
  apply Z.pow_nonzero; lia.
Qed.

(** Only an integer-valued number equals an integer. *)
Lemma strict_equal_integer (a : Z) (n : number) :
  strict_equal (of_Z a) n = true → is_integer n = true.
Proof.
  unfold strict_equal, of_Z. destruct n as [|[]|m e]; cbn; try done.
  destruct (Z.compare_spec (a * 10 ^ (0 - 0 `min` e)) (m * 10 ^ (e - 0 `min` e)))
    as [Ha| |]; try done.
  intros _. destruct (Z.leb_spec 0 e) as [|He]; [done|]. cbn.
  rewrite Z.min_r in Ha by lia.
  replace (e - e) with 0 in Ha by lia. rewrite Z.pow_0_r, Z.mul_1_r in Ha.
  replace (0 - e) with (- e) in Ha by lia.
  apply Z.eqb_eq. rewrite <- Ha. apply Z.mod_mul.
  apply Z.pow_nonzero; lia.
Qed.

(** *** Decimal numerals *)

Lemma all_digits_uint d : all_digits (NilEmpty.string_of_uint d) = true.
Proof. induction d; cbn; auto. Qed.

Lemma digits_value_acc d acc :
  digits_value (Z.pos acc) (NilEmpty.string_of_uint d)
  = Z.pos (Pos.of_uint_acc d acc).
Proof.
  revert acc.
  induction d; intros acc;
    cbn [NilEmpty.string_of_uint digits_value Pos.of_uint_acc]; [done|..];
    rewrite <- IHd; f_equal; cbn; lia.
Qed.

Lemma digits_value_uint d :
  digits_value 0 (NilEmpty.string_of_uint d) = Z.of_N (Pos.of_uint d).
Proof.
  induction d; cbn [NilEmpty.string_of_uint digits_value Pos.of_uint];
    [done|done|..]; apply (digits_value_acc d).
Qed.

Lemma span_all_digits s : all_digits s = true → span_digits s = (s, "").
Proof.
  induction s as [|c s IH]; cbn; [done|].
  intros [Hc Hs]%andb_prop. by rewrite Hc, (IH Hs).
Qed.

Lemma digit_not_space c : is_digit c = true → is_white_space c = false.
Proof. by destruct c as [[] [] [] [] [] [] [] []]. Qed.

Lemma trimEnd_digits s : all_digits s = true → trimEnd s = s.
Proof.
  induction s as [|c s IH]; cbn; [done|].
  intros [Hc Hs]%andb_prop. rewrite (IH Hs), (digit_not_space c Hc).
  by destruct s.
Qed.

Lemma trim_digits s : all_digits s = true → trim s = s.
Proof.
  intros Hs. unfold trim.
  assert (trimStart s = s) as ->.
  { destruct s as [|c s]; [done|]. cbn in *. apply andb_prop in Hs as [Hc _].
    by rewrite (digit_not_space c Hc). }
  by apply trimEnd_digits.
Qed.

Lemma append_empty (s : string) : s +:+ "" = s.
Proof.
  induction s as [|a s IH]; [done|].
  change (String a s +:+ "") with (String a (s +:+ "")). by rewrite IH.
Qed.

(** [Number] reads a run of decimal digits as the integer it writes. *)
Lemma Number_digits s :
  all_digits s = true → s ≠ "" → Number s = Dec (digits_value 0 s) 0.
Proof.
  intros Hs Hne. unfold Number. rewrite (trim_digits s Hs).
  rewrite bool_decide_false by done.
  assert (non_decimal s = None) as ->.
  { unfold non_decimal. destruct s as [|c0 [|c1 t]]; [done| |].
    - by destruct c0 as [[] [] [] [] [] [] [] []].
    - cbn in Hs. apply andb_prop in Hs as [_ [Hc1 _]%andb_prop].
      destruct c0 as [[] [] [] [] [] [] [] []]; try done.
      by destruct c1 as [[] [] [] [] [] [] [] []]. }
  destruct s as [|c s']; [done|].
  assert (match String c s' with
          | String "-" u => (true, u)
          | String "+" u => (false, u)
          | _ => (false, String c s')
          end = (false, String c s')) as ->.
  { cbn in Hs. apply andb_prop in Hs as [Hc _].
    by destruct c as [[] [] [] [] [] [] [] []]. }
  rewrite bool_decide_false.
  2:{ cbn in Hs. apply andb_prop in Hs as [Hc _]. by intros [= -> _]. }
  rewrite (span_all_digits _ Hs). cbn [exponent_part].
  rewrite (bool_decide_false (String c s' = "")) by done. cbn [andb].
  rewrite bool_decide_true by done.
  by rewrite append_empty.
Qed.

Lemma Number_numeral (p : positive) :
  Number (digits_of_pos p) = of_Z (Z.pos p).
Proof.
  unfold digits_of_pos, NilZero.string_of_uint.
  pose proof (Unsigned.to_uint_nonnil p) as Hnn.
  pose proof (Unsigned.of_to p) as Hof.
  destruct (Pos.to_uint p) as [|d|d|d|d|d|d|d|d|d|d] eqn:E; [done|..];
    (rewrite Number_digits;
     [by rewrite digits_value_uint, Hof
     |apply all_digits_uint
     |done]).
Qed.

End numbers.

(** ** Running chains *)

Section chains.
Import JS ExpressValidator.
Implicit Types (b : gmap string value) (c : validation_chain) (k : string).

Lemma get_insert b k k' v :
  get k (<[k' := v]> b) = if decide (k = k') then v else get k b.
Proof.
  unfold get. case_decide as Hk.
  - subst. by rewrite lookup_insert_eq.
  - by rewrite lookup_insert_ne.
Qed.

Lemma run_Some c b r :
  run c b = Some r →
  ∃ r0, chain_result c (get (field c) b) = Some r0
        ∧ r.1 = map (λ m, {| path := field c; msg := m |}) r0.1
        ∧ r.2 = if is_undefined (get (field c) b) && is_undefined r0.2
                then b else <[field c := r0.2]> b.
Proof.
  unfold run. destruct (chain_result c _) as [r0|]; [|done].
  intros [= <-]. by exists r0.
Qed.

Lemma run_None c b : run c b = None ↔ chain_result c (get (field c) b) = None.
Proof. unfold run. by destruct (chain_result c _). Qed.

Lemma run_errors c b r :
  run c b = Some r →
  r.1 = map (λ m, {| path := field c; msg := m |})
            (messages c (get (field c) b)).
Proof.
  intros (r0 & Hr0 & -> & _)%run_Some. unfold messages. by rewrite Hr0.
Qed.

(** A chain touches its own field only. *)
Lemma get_run c b k r :
  run c b = Some r →
  get k r.2 = if decide (k = field c) then sanitized c (get k b) else get k b.
Proof.
  intros (r0 & Hr0 & _ & ->)%run_Some. case_decide as Hk.
  - subst k. unfold sanitized. rewrite Hr0. cbn.
    destruct (is_undefined (get (field c) b)) eqn:Hv,
             (is_undefined r0.2) eqn:Hv'; cbn;
      rewrite ?get_insert, ?decide_True by done; try done.
    destruct (get (field c) b), r0.2; done.
  - destruct (_ && _); [done|]. by rewrite get_insert, decide_False.
Qed.

(** With one chain per field, each chain sees the field as the request
    gave it. *)
Lemma get_other c (cs : list validation_chain) b r c' :
  field c ∉ field <$> cs → c' ∈ cs → run c b = Some r →
  get (field c') r.2 = get (field c') b.
Proof.
  intros Hc Hc' Hr. rewrite (get_run _ _ _ _ Hr), decide_False; [done|].
  intros Heq. apply Hc. rewrite <- Heq. by apply list_elem_of_fmap_2.
Qed.

(** The chains throw when one of them does. *)
Lemma run_all_None cs b :
  NoDup (field <$> cs) →
  run_all cs b = None ↔
  Exists (λ c, chain_result c (get (field c) b) = None) cs.
Proof.
  revert b. induction cs as [|c cs IH]; intros b Hnd.
  { split; [done|]. by intros ?%Exists_nil. }
  apply NoDup_cons in Hnd as [Hc Hnd]. cbn [run_all].
  rewrite Exists_cons, <- run_None.
  destruct (run c b) as [r1|] eqn:E1; cbn; [|by split; [left|]].
  assert (Exists (λ c', chain_result c' (get (field c') b) = None) cs
          ↔ Exists (λ c', chain_result c' (get (field c') r1.2) = None) cs)
    as ->.
  { rewrite !Exists_exists. split; intros (c' & Hc' & H); exists c';
      (split; [done|]); by rewrite (get_other _ _ _ _ _ Hc Hc' E1) in *. }
  rewrite <- (IH r1.2 Hnd).
  destruct (run_all cs r1.2); cbn.
  - split; [done|]. by intros [|].
  - split; [by right|done].
Qed.

Lemma run_all_errors cs b r :
  NoDup (field <$> cs) →
  run_all cs b = Some r →
  r.1 = flat_map (λ c, map (λ m, {| path := field c; msg := m |})
                           (messages c (get (field c) b))) cs.
Proof.
  revert b r. induction cs as [|c cs IH]; intros b r Hnd; cbn [run_all].
  { by intros [= <-]. }
  apply NoDup_cons in Hnd as [Hc Hnd].
  destruct (run c b) as [r1|] eqn:E1; cbn; [|done].
  destruct (run_all cs r1.2) as [r2|] eqn:E2; cbn; [|done].
  intros [= <-]. cbn. rewrite (run_errors _ _ _ E1). f_equal.
  rewrite (IH _ _ Hnd E2).
  rewrite !flat_map_concat_map. f_equal. apply map_ext_in.
  intros c' Hc'%list_elem_of_In.
  by rewrite (get_other _ _ _ _ _ Hc Hc' E1).
Qed.

Lemma run_all_get cs b k r :
  NoDup (field <$> cs) →
  run_all cs b = Some r →
  get k r.2 =
  match list_find (λ c, field c = k) cs with
  | Some (_, c) => sanitized c (get k b)
  | None => get k b
  end.
Proof.
  revert b r. induction cs as [|c cs IH]; intros b r Hnd; cbn [run_all].
  { by intros [= <-]. }
  apply NoDup_cons in Hnd as [Hc Hnd].
  destruct (run c b) as [r1|] eqn:E1; cbn; [|done].
  destruct (run_all cs r1.2) as [r2|] eqn:E2; cbn; [|done].
  intros [= <-]. cbn. rewrite (IH _ _ Hnd E2).
  pose proof (get_run _ _ k _ E1) as Hg.
  destruct (decide (field c = k)) as [Hk|Hk].
  - subst k. rewrite decide_True in Hg by done.
    destruct (list_find _ cs) as [[i c']|] eqn:Hf; cbn; [|done].
    apply list_find_Some in Hf as (Hi & Hfc & _).
    destruct Hc. rewrite <- Hfc. apply list_elem_of_fmap_2.
    by eapply list_elem_of_lookup_2.
  - rewrite decide_False in Hg by done. rewrite Hg.
    by destruct (list_find _ cs) as [[i c']|].
Qed.

End chains.

(** ** The validators of the menu *)

Section validation.
Import JS ExpressValidator Server.
Implicit Types (b : gmap string value) (c : validation_chain) (k : string).

Lemma menuValidators_fields : NoDup (field <$> menuValidators).
Proof. apply (bool_decide_unpack _). by vm_compute. Qed.

Lemma flat_map_nil {A B} (f : A → list B) (xs : list A) :
  flat_map f xs = [] ↔ Forall (λ x, f x = []) xs.
Proof.
  induction xs as [|x xs IH]; cbn.
  - split; [constructor|done].
  - rewrite Forall_cons, <- IH. split.
    + by intros [-> ->]%app_eq_nil.
    + by intros [-> ->].
Qed.

(** Validation throws when the chain of some field does. *)
Lemma validation_None b :
  validation b = None ↔
  Exists (λ c, chain_result c (get (field c) b) = None) menuValidators.
Proof.
  rewrite <- run_all_None by apply menuValidators_fields.
  unfold validation. by destruct (run_all menuValidators b).
Qed.

Lemma validation_Some b errs :
  validation b = Some errs →
  errs = flat_map (λ c, map (λ m, {| path := field c; msg := m |})
                            (messages c (get (field c) b))) menuValidators.
Proof.
  unfold validation.
  destruct (run_all menuValidators b) as [r|] eqn:E; [|done].
  intros [= <-]. by apply run_all_errors, E; apply menuValidators_fields.
Qed.

(** Validation runs to the end when every chain does. *)
Lemma validation_ran b :
  validation b ≠ None ↔
  Forall (λ c, chain_result c (get (field c) b) ≠ None) menuValidators.
Proof.
  rewrite validation_None, Forall_forall, Exists_exists. split.
  - intros H c Hc Hn. apply H. by exists c.
  - intros H (c & Hc & Hn). by apply (H c).
Qed.

Lemma valid_Forall b :
  valid b ↔
  Forall (λ c, ∃ v', chain_result c (get (field c) b) = Some ([], v'))
         menuValidators.
Proof.
  unfold valid. split.
  - intros Hv.
    assert (validation b ≠ None) as Hran%validation_ran by (by rewrite Hv).
    apply validation_Some, eq_sym, flat_map_nil in Hv.
    rewrite Forall_forall in *. intros c Hc.
    specialize (Hran c Hc). specialize (Hv c Hc). unfold messages in Hv.
    destruct (chain_result c _) as [[msgs v']|]; [|done].
    cbn in Hv. destruct msgs; [|done]. by exists v'.
  - intros Hall.
    destruct (validation b) as [errs|] eqn:E.
    + apply validation_Some in E as ->. f_equal. apply flat_map_nil.
      eapply Forall_impl; [exact Hall|].
      intros c [v' Hc]. unfold messages. by rewrite Hc.
    + apply validation_None, Exists_exists in E as (c & Hc & Hn).
      rewrite Forall_forall in Hall. destruct (Hall c Hc) as [v' Hv'].
      by rewrite Hn in Hv'.
Qed.

(** The body the handler sees holds, in each validated field, what the
    chain of the field left. *)
Lemma sanitize_get b k :
  validation b ≠ None →
  get k (sanitize b) =
  match list_find (λ c, field c = k) menuValidators with
  | Some (_, c) => sanitized c (get k b)
  | None => get k b
  end.
Proof.
  unfold validation, sanitize.
  destruct (run_all menuValidators b) as [r|] eqn:E; [|done].
  intros _. exact (run_all_get _ _ _ _ menuValidators_fields E).
Qed.

Lemma sanitize_threw b : validation b = None → sanitize b = b.
Proof.
  unfold validation, sanitize. by destruct (run_all menuValidators b).
Qed.

(** A chain of validators, with no sanitizer, leaves the value as it is. *)
Lemma run_stack_value items v r :
  Forall (λ it, match it with Sanitization _ => False | _ => True end) items →
  run_stack items v = Some r → r.2 = v.
Proof.
  revert v r. induction items as [|it items IH]; intros v r Hits; cbn.
  { by intros [= <-]. }
  apply Forall_cons in Hits as [Hit Hits].
  destruct (run_item it v) as [r1|] eqn:E1; cbn; [|done].
  destruct (run_stack items r1.2) as [r2|] eqn:E2; cbn; [|done].
  intros [= <-]. cbn. rewrite (IH _ _ Hits E2).
  destruct it as [f m|f m|f]; cbn in E1; [| |done].
  - by injection E1 as <-.
  - destruct (mapM _ _); cbn in E1; [|done]. by injection E1 as <-.
Qed.

Lemma sanitized_value c v :
  Forall (λ it, match it with Sanitization _ => False | _ => True end)
         (stack c) →
  sanitized c v = v.
Proof.
  intros Hc. unfold sanitized, chain_result.
  destruct (_ && _); [done|].
  destruct (run_stack _ _) as [r|] eqn:E; [|done]. cbn.
  by eapply run_stack_value.
Qed.

Lemma sanitize_unchanged b k :
  k ∈ ["name"; "description"; "category"; "ingredients"] →
  get k (sanitize b) = get k b.
Proof.
  intros Hk.
  destruct (decide (validation b = None)) as [Hn|Hn].
  { by rewrite sanitize_threw. }
  rewrite sanitize_get by done.
  repeat (apply elem_of_cons in Hk as [->|Hk]);
    try (by apply elem_of_nil in Hk);
    cbn; apply sanitized_value; cbn; repeat constructor.
Qed.

Lemma sanitize_name b : get "name" (sanitize b) = get "name" b.
Proof. apply sanitize_unchanged. repeat constructor. Qed.

Lemma sanitize_description b :
  get "description" (sanitize b) = get "description" b.
Proof. apply sanitize_unchanged. repeat constructor. Qed.

Lemma sanitize_category b : get "category" (sanitize b) = get "category" b.
Proof. apply sanitize_unchanged. repeat constructor. Qed.

Lemma sanitize_ingredients b :
  get "ingredients" (sanitize b) = get "ingredients" b.
Proof. apply sanitize_unchanged. repeat constructor. Qed.

(** [toFloat] turns the price, or each element of an array, into a number. *)
Lemma sanitize_price b :
  validation b ≠ None →
  match get "price" b with
  | VArr l =>
      ∃ strs, mapM toString l = Some strs
        ∧ get "price" (sanitize b)
          = VArr (map (λ s, VNum (Validator.toFloat s)) strs)
  | v =>
      ∃ s, toString v = Some s
        ∧ get "price" (sanitize b) = VNum (Validator.toFloat s)
  end.
Proof.
  intros Hran. rewrite sanitize_get by done.
  apply validation_ran in Hran. rewrite Forall_forall in Hran.
  set (c := List.nth 2 menuValidators (body "")).
  assert (menuValidators !! 2%nat = Some c) as Hc by done.
  specialize (Hran c (list_elem_of_lookup_2 _ _ _ Hc)).
  change (list_find _ _) with (Some (2%nat, c)). cbn [field]. unfold sanitized.
  change (field c) with "price" in Hran.
  destruct (chain_result c _) as [r|] eqn:E; [clear Hran|done].
  unfold c in E. revert E. destruct (get "price" b); intros E; ran E;
    injection E as <-; by eexists.
Qed.

(** [toBoolean] does the same for [available], unless it is absent. *)
Lemma sanitize_available b :
  validation b ≠ None →
  match get "available" b with
  | VUndefined => get "available" (sanitize b) = VUndefined
  | VArr l =>
      ∃ strs, mapM toString l = Some strs
        ∧ get "available" (sanitize b)
          = VArr (map (λ s, VBool (Validator.toBoolean s)) strs)
  | v =>
      ∃ s, toString v = Some s
        ∧ get "available" (sanitize b) = VBool (Validator.toBoolean s)
  end.
Proof.
  intros Hran. rewrite sanitize_get by done.
  apply validation_ran in Hran. rewrite Forall_forall in Hran.
  set (c := List.nth 5 menuValidators (body "")).
  assert (menuValidators !! 5%nat = Some c) as Hc by done.
  specialize (Hran c (list_elem_of_lookup_2 _ _ _ Hc)).
  change (list_find _ _) with (Some (5%nat, c)). cbn [field]. unfold sanitized.
  change (field c) with "available" in Hran.
  destruct (chain_result c _) as [r|] eqn:E; [clear Hran|done].
  unfold c in E. revert E. destruct (get "available" b); intros E; ran E;
    injection E as <-; try done; by eexists.
Qed.

(** What a valid body carries in the fields the handlers dereference. *)
Lemma valid_inv b :
  valid b →
  (∃ s, get "name" b = VStr s ∧ (3 ≤ String.length s)%nat) ∧
  (∃ s, get "description" b = VStr s ∧ (10 ≤ String.length s)%nat) ∧
  (∃ s, get "category" b = VStr s
        ∧ s ∈ ["appetizer"; "entree"; "dessert"; "beverage"]) ∧
  (∃ l, get "ingredients" b = VArr l ∧ (1 ≤ List.length l)%nat).
Proof.
  intros Hv%valid_Forall. unfold menuValidators in Hv.
  apply Forall_cons in Hv as [[? Hname] Hv].
  apply Forall_cons in Hv as [[? Hdesc] Hv].
  apply Forall_cons in Hv as [_ Hv].
  apply Forall_cons in Hv as [[? Hcat] Hv].
  apply Forall_cons in Hv as [[? Hing] _].
  cbn -[toString] in Hname, Hdesc, Hcat, Hing.
  split_and!.
  - by_field Hname (get "name" b). simplify_eq/=.
    eexists. split; [done|]. by eapply bool_decide_eq_true_1.
  - by_field Hdesc (get "description" b). simplify_eq/=.
    eexists. split; [done|]. by eapply bool_decide_eq_true_1.
  - by_field Hcat (get "category" b). simplify_eq/=.
    eexists. split; [done|]. by eapply bool_decide_eq_true_1.
  - by_field Hing (get "ingredients" b).
    eexists. split; [done|]. by eapply bool_decide_eq_true_1.
Qed.

(** The values validation lets through for [available]. *)
Lemma valid_available b :
  valid b →
  match get "available" b with
  | VUndefined | VArr _ => True
  | v => ∃ s, toString v = Some s ∧ s ∈ ["true"; "false"; "1"; "0"]
  end.
Proof.
  intros Hv%valid_Forall. unfold menuValidators in Hv.
  do 5 (apply Forall_cons in Hv as [_ Hv]).
  apply Forall_cons in Hv as [[? Hv] _].
  cbn -[toString] in Hv. by_field Hv (get "available" b); try done;
    simplify_eq/=; try done;
    (eexists; split; [done|]; by eapply bool_decide_eq_true_1).
Qed.

(** Every required field has an [exists] rule: when the field is absent
    and validation runs to the end, the errors hold its message. *)
Lemma missing_reported b f errs :
  f ∈ required → b !! f = None → validation b = Some errs →
  {| path := f; msg := f +:+ " required" |} ∈ errs.
Proof.
  intros Hf Hb ->%validation_Some.
  assert (get f b = VUndefined) as Hg by (unfold get; by rewrite Hb).
  apply list_elem_of_In, in_flat_map.
  unfold required in Hf.
  repeat (apply elem_of_cons in Hf as [->|Hf]);
    try (by apply elem_of_nil in Hf).
  - exists (List.nth 0 menuValidators (body "")).
    split; [cbn; tauto|]. unfold messages.
    change (field _) with "name". rewrite Hg. cbn. by left.
  - exists (List.nth 1 menuValidators (body "")).
    split; [cbn; tauto|]. unfold messages.
    change (field _) with "description". rewrite Hg. cbn. by left.
  - exists (List.nth 2 menuValidators (body "")).
    split; [cbn; tauto|]. unfold messages.
    change (field _) with "price". rewrite Hg. cbn. by left.
  - exists (List.nth 3 menuValidators (body "")).
    split; [cbn; tauto|]. unfold messages.
    change (field _) with "category". rewrite Hg. cbn. by left.
  - exists (List.nth 4 menuValidators (body "")).
    split; [cbn; tauto|]. unfold messages.
    change (field _) with "ingredients". rewrite Hg. cbn. by left.
Qed.

Lemma invalid_missing b f : f ∈ required → b !! f = None → ¬ valid b.
Proof.
  intros Hf Hb Hv. by apply (missing_reported b f [] Hf Hb), elem_of_nil in Hv.
Qed.

Lemma validated_field k :
  k ∈ ["name"; "description"; "price"; "category"; "ingredients"; "available"] →
  k ∈ field <$> menuValidators.
Proof. done. Qed.

(** *** When a validator throws *)

Lemma join_comma_throws elem (l : list value) :
  join_comma elem l = None → Exists (λ x, elem x = None) l.
Proof.
  induction l as [|x l IH]; [done|]. destruct l as [|y l'].
  - intros H. by apply Exists_cons_hd.
  - change (join_comma elem (x :: y :: l'))
      with (s ← elem x; t ← join_comma elem (y :: l'); Some (s +:+ "," +:+ t)).
    destruct (elem x) as [s|] eqn:Ex; [|intros _; by apply Exists_cons_hd].
    destruct (join_comma elem (y :: l')) as [t|] eqn:Ej; [done|].
    intros _. apply Exists_cons_tl. by apply IH.
Qed.

(** Induction on a value, through the elements of arrays. *)
Lemma value_array_ind (P : value → Prop) :
  P VUndefined → P VNull → (∀ a, P (VBool a)) → (∀ n, P (VNum n)) →
  (∀ s, P (VStr s)) → (∀ l, Forall P l → P (VArr l)) →
  (∀ props, P (VObj props)) → ∀ v, P v.
Proof.
  intros Hu Hn Hb Hnum Hs Harr Hobj. fix IH 1.
  intros [| |a|n|s|l|props];
    [exact Hu|exact Hn|apply Hb|apply Hnum|apply Hs| |apply Hobj].
  apply Harr. induction l as [|x l IHl]; constructor; [apply IH|apply IHl].
Qed.

Lemma to_string_throws v : to_string v = None → hides_toString v = true.
Proof.
  induction v as [| |[]|n|s|l IH|props] using value_array_ind; cbn; try done.
  - intros H%join_comma_throws. apply existsb_exists.
    apply Exists_exists in H as (x & Hx & Hn).
    rewrite Forall_forall in IH.
    exists x. split; [by apply list_elem_of_In|].
    apply IH; [done|]. by destruct x.
  - destruct (own "toString" props); [|done]. intros _.
    by rewrite bool_decide_true.
Qed.

Lemma toString_throws v : toString v = None → hides_toString v = true.
Proof.
  destruct v as [| |a|[]|s|l|props]; try done; try apply to_string_throws.
  cbn. destruct (own "toString" props) as [f|]; [|done]. intros _.
  by rewrite bool_decide_true.
Qed.

Lemma printed_throws (l : list value) :
  mapM toString l = None → existsb hides_toString l = true.
Proof.
  intros (x & Hx & Hn)%mapM_None_1%Exists_exists.
  apply existsb_exists. exists x. split; [by apply list_elem_of_In|].
  by apply toString_throws.
Qed.

(** A chain of the menu throws only on a value that hides [toString]. *)
Lemma chain_throws c v :
  c ∈ menuValidators → chain_result c v = None → hides_toString v = true.
Proof.
  unfold menuValidators. intros Hc H.
  repeat (apply elem_of_cons in Hc as [->|Hc]);
    try (by apply elem_of_nil in Hc);
    revert H; destruct v; intros H; cbn -[toString] in H;
    repeat match type of H with
    | context [mapM toString ?l] =>
        destruct (mapM toString l) eqn:?; cbn -[toString] in H
    | context [toString ?v] =>
        destruct (toString v) eqn:?; cbn -[toString] in H
    end;
    first [discriminate H|by apply toString_throws|by apply printed_throws].
Qed.

(** Validation throws only on a body one of whose printed fields hides
    [toString]. *)
Lemma validation_throws b :
  validation b = None →
  ∃ k, k ∈ ["name"; "description"; "price"; "category"; "available"]
       ∧ hides_toString (get k b) = true.
Proof.
  intros (c & Hc & Hn)%validation_None%Exists_exists.
  pose proof (chain_throws c _ Hc Hn) as Hh.
  exists (field c). split; [|done].
  unfold menuValidators in Hc.
  destruct (decide (field c = "ingredients")) as [Hi|Hi].
  { exfalso. repeat (apply elem_of_cons in Hc as [->|Hc]);
      try (by apply elem_of_nil in Hc); try (by cbn in Hi);
      by cbn in Hn. }
  repeat (apply elem_of_cons in Hc as [->|Hc]);
    try (by apply elem_of_nil in Hc);
    try (by cbn in Hi);
    apply (bool_decide_unpack _); by vm_compute.
Qed.

(** A body whose printed fields hide no [toString] is validated to the
    end. *)
Lemma validation_plain b :
  (∀ k, k ∈ ["name"; "description"; "price"; "category"; "available"] →
        hides_toString (get k b) = false) →
  validation b ≠ None.
Proof.
  intros Hplain (k & Hk & Hh)%validation_throws.
  by rewrite (Hplain k Hk) in Hh.
Qed.

End validation.

(** ** The write routes, by validation outcome *)

Section handlers.
Import JS ExpressValidator Server.
Implicit Types (b : gmap string value) (st : state) (p : string).

Lemma post_eq b st :
  post b st =
  match validation b with
  | None => (st, internal_error)
  | Some errors =>
      match handleValidation errors with
      | Some r => (st, r)
      | None => create (sanitize b) st
      end
  end.
Proof.
  unfold post, validation, sanitize.
  by destruct (run_all menuValidators b) as [[]|].
Qed.

Lemma put_eq p b st :
  put p b st =
  match validation b with
  | None => (st, internal_error)
  | Some errors =>
      match handleValidation errors with
      | Some r => (st, r)
      | None => update p (sanitize b) st
      end
  end.
Proof.
  unfold put, validation, sanitize.
  by destruct (run_all menuValidators b) as [[]|].
Qed.

(** A body that does not pass is turned away, with the errors or, when a
    validator threw, by the error handler. *)
Lemma post_invalid b st :
  ¬ valid b →
  post b st = (st, internal_error)
  ∨ ∃ errs, errs ≠ []
      ∧ post b st = (st, {| status := 400; payload := JErrors errs |}).
Proof.
  unfold valid. rewrite post_eq.
  destruct (validation b) as [[|e errors]|]; [done| |by left].
  intros _. right. cbn. eexists. split; [|done]. done.
Qed.

Lemma put_invalid p b st :
  ¬ valid b →
  put p b st = (st, internal_error)
  ∨ ∃ errs, errs ≠ []
      ∧ put p b st = (st, {| status := 400; payload := JErrors errs |}).
Proof.
  unfold valid. rewrite put_eq.
  destruct (validation b) as [[|e errors]|]; [done| |by left].
  intros _. right. cbn. eexists. split; [|done]. done.
Qed.

Lemma post_valid b st : valid b → post b st = create (sanitize b) st.
Proof. unfold valid. rewrite post_eq. by intros ->. Qed.

Lemma put_valid p b st : valid b → put p b st = update p (sanitize b) st.
Proof. unfold valid. rewrite put_eq. by intros ->. Qed.

(** After validation [name.trim()] cannot throw: the handler builds the
    item and appends it. *)
Lemma create_valid b st :
  valid b →
  ∃ n d, get "name" b = VStr n ∧ get "description" b = VStr d ∧
    create (sanitize b) st =
      let newItem :=
        {| id := nextId st; name := trim n; description := trim d;
           price := get "price" (sanitize b);
           category := get "category" b;
           ingredients := get "ingredients" b;
           available := match get "available" (sanitize b) with
                        | VBool a => a
                        | _ => true
                        end |} in
      ({| menu := menu st ++ [newItem]; nextId := nextId st + 1 |},
       {| status := 201; payload := JItem newItem |}).
Proof.
  intros ([n [Hn _]] & [d [Hd _]] & _)%valid_inv.
  exists n, d. split_and!; [done..|].
  unfold create. rewrite !sanitize_name, Hn.
  by rewrite sanitize_description, Hd, sanitize_category, sanitize_ingredients.
Qed.

Lemma update_item_valid x b st idx old :
  valid b →
  list_find (has_id x) (menu st) = Some (idx, old) →
  ∃ n d, get "name" b = VStr n ∧ get "description" b = VStr d ∧
    update_item x (sanitize b) st =
      let updated :=
        {| id := id old; name := trim n; description := trim d;
           price := get "price" (sanitize b);
           category := get "category" b;
           ingredients := get "ingredients" b;
           available := match get "available" (sanitize b) with
                        | VBool a => a
                        | _ => available old
                        end |} in
      ({| menu := <[idx := updated]> (menu st); nextId := nextId st |},
       {| status := 200; payload := JItem updated |}).
Proof.
  intros ([n [Hn _]] & [d [Hd _]] & _)%valid_inv Hf.
  exists n, d. split_and!; [done..|].
  unfold update_item. rewrite Hf, !sanitize_name, Hn.
  by rewrite sanitize_description, Hd, sanitize_category, sanitize_ingredients.
Qed.

Lemma update_valid p b st idx old :
  valid b →
  list_find (has_id (Number p)) (menu st) = Some (idx, old) →
  ∃ n d, get "name" b = VStr n ∧ get "description" b = VStr d ∧
    update p (sanitize b) st =
      let updated :=
        {| id := id old; name := trim n; description := trim d;
           price := get "price" (sanitize b);
           category := get "category" b;
           ingredients := get "ingredients" b;
           available := match get "available" (sanitize b) with
                        | VBool a => a
                        | _ => available old
                        end |} in
      ({| menu := <[idx := updated]> (menu st); nextId := nextId st |},
       {| status := 200; payload := JItem updated |}).
Proof. apply update_item_valid. Qed.

Lemma update_unknown p b st :
  list_find (has_id (Number p)) (menu st) = None →
  update p b st = (st, not_found).
Proof. unfold update, update_item. by intros ->. Qed.

(** The update handler reads the six validated fields and nothing else. *)
Lemma update_agree p b1 b2 st :
  (∀ k, k ∈ field <$> menuValidators → get k b1 = get k b2) →
  update p b1 st = update p b2 st.
Proof.
  intros Hag. unfold update, update_item.
  assert (∀ k, bool_decide (k ∈ field <$> menuValidators) = true →
               get k b1 = get k b2) as H.
  { intros k Hk. apply Hag. by eapply bool_decide_eq_true_1. }
  by rewrite !(H "name"), !(H "description"), !(H "price"),
    !(H "category"), !(H "ingredients"), !(H "available")
    by (vm_compute; reflexivity).
Qed.

(** Validation reads the six validated fields and nothing else. *)
Lemma validation_agree b1 b2 :
  (∀ k, k ∈ field <$> menuValidators → get k b1 = get k b2) →
  validation b1 = validation b2.
Proof.
  intros Hag.
  assert (∀ c, c ∈ menuValidators →
               chain_result c (get (field c) b1)
               = chain_result c (get (field c) b2)) as Hc.
  { intros c Hc. rewrite Hag; [done|]. by apply list_elem_of_fmap_2. }
  assert (validation b1 = None ↔ validation b2 = None) as Hn.
  { rewrite !validation_None, !Exists_exists.
    split; intros (c & Hin & H); exists c; (split; [done|]);
      by rewrite (Hc c Hin) in *. }
  destruct (validation b1) as [e1|] eqn:E1, (validation b2) as [e2|] eqn:E2.
  - apply validation_Some in E1 as ->. apply validation_Some in E2 as ->.
    f_equal. rewrite !flat_map_concat_map. f_equal. apply map_ext_in.
    intros c Hin%list_elem_of_In. unfold messages. by rewrite (Hc c Hin).
  - destruct Hn as [_ Hn]. by specialize (Hn eq_refl).
  - destruct Hn as [Hn _]. by specialize (Hn eq_refl).
  - done.
Qed.

Lemma sanitize_agree b1 b2 k :
  (∀ k, k ∈ field <$> menuValidators → get k b1 = get k b2) →
  k ∈ field <$> menuValidators →
  get k (sanitize b1) = get k (sanitize b2).
Proof.
  intros Hag Hk. pose proof (validation_agree b1 b2 Hag) as He.
  destruct (decide (validation b1 = None)) as [Hn|Hn].
  - rewrite !sanitize_threw by (by rewrite <- ?He). by apply Hag.
  - rewrite !sanitize_get by (by rewrite <- ?He). by rewrite (Hag k Hk).
Qed.

Lemma put_agree p b1 b2 st :
  (∀ k, k ∈ field <$> menuValidators → get k b1 = get k b2) →
  put p b1 st = put p b2 st.
Proof.
  intros Hag. rewrite !put_eq, (validation_agree b1 b2 Hag).
  destruct (validation b2) as [errs|]; [|done].
  destruct (handleValidation _); [done|].
  apply update_agree. intros k Hk. by apply sanitize_agree.
Qed.

End handlers.

(** ** The store across requests *)

Section store.
Import JS ExpressValidator Server.
Implicit Types (b : gmap string value) (st : state) (p : string) (l : list item).

Lemma seed_invariant : invariant seed.
Proof.
  split_and!.
  - apply (bool_decide_unpack _). by vm_compute.
  - cbn. repeat constructor.
  - done.
Qed.

Lemma find_has_id n l i m :
  list_find (has_id n) l = Some (i, m) → l !! i = Some m ∧ has_id n m.
Proof. by intros (? & ? & _)%list_find_Some. Qed.

Lemma find_None_iff n l :
  list_find (has_id n) l = None ↔ ∀ m, m ∈ l → ¬ has_id n m.
Proof. by rewrite list_find_None, Forall_forall. Qed.

Lemma has_id_same n m m' : has_id n m → has_id n m' → id m = id m'.
Proof. unfold has_id. apply strict_equal_of_Z_inj. Qed.

Lemma has_id_of_Z z m : has_id (of_Z z) m ↔ id m = z.
Proof. unfold has_id. rewrite strict_equal_of_Z. apply bool_decide_eq_true. Qed.

(** A number that equals the integer [z] selects the items whose id is
    [z]; an integer-valued number equals some integer. *)
Lemma has_id_denotes n z m :
  strict_equal (of_Z z) n = true → has_id n m ↔ id m = z.
Proof.
  intros Hz. unfold has_id. split.
  - intros Hm. by eapply strict_equal_of_Z_inj.
  - by intros ->.
Qed.

Lemma integer_denotes n :
  is_integer n = true → ∃ z, strict_equal (of_Z z) n = true.
Proof.
  unfold strict_equal, of_Z. destruct n as [|[]|m e]; cbn; try done.
  intros [He|Hm]%orb_prop.
  - apply Z.leb_le in He. exists (m * 10 ^ e).
    rewrite Z.min_l by lia. replace (0 - 0) with 0 by lia.
    replace (e - 0) with e by lia.
    by rewrite Z.pow_0_r, Z.mul_1_r, Z.compare_refl.
  - apply Z.eqb_eq in Hm.
    destruct (Z.leb_spec 0 e) as [He|He].
    + exists (m * 10 ^ e).
      rewrite Z.min_l by lia. replace (0 - 0) with 0 by lia.
      replace (e - 0) with e by lia.
      by rewrite Z.pow_0_r, Z.mul_1_r, Z.compare_refl.
    + exists (m / 10 ^ (- e)).
      rewrite Z.min_r by lia. replace (e - e) with 0 by lia.
      replace (0 - e) with (- e) by lia.
      rewrite Z.pow_0_r, Z.mul_1_r.
      assert (m / 10 ^ (- e) * 10 ^ (- e) = m) as ->; [|by rewrite Z.compare_refl].
      pose proof (Z.div_mod m (10 ^ (- e))) as Hd.
      assert (10 ^ (- e) ≠ 0) by (apply Z.pow_nonzero; lia). lia.
Qed.

Lemma find_denotes n z l :
  strict_equal (of_Z z) n = true →
  list_find (has_id n) l = list_find (λ m, id m = z) l.
Proof. intros Hz. apply list_find_ext. intros m. by apply has_id_denotes. Qed.

(** Where ids are distinct, the lookup finds the one item with the id. *)
Lemma find_unique n l i m :
  NoDup (id <$> l) → l !! i = Some m → has_id n m →
  list_find (has_id n) l = Some (i, m).
Proof.
  intros Hnd Hi Hm. apply list_find_Some. split_and!; [done..|].
  intros j m' Hj Hlt Hm'.
  pose proof (has_id_same _ _ _ Hm Hm') as Heq.
  assert (i = j); [|lia].
  eapply NoDup_lookup; [done| |]; rewrite list_lookup_fmap.
  - by rewrite Hi.
  - rewrite Hj. cbn. by rewrite Heq.
Qed.

Lemma ids_insert l i old u :
  l !! i = Some old → id u = id old → id <$> <[i := u]> l = id <$> l.
Proof.
  intros Hi Hu. rewrite list_fmap_insert, Hu. apply list_insert_id.
  by rewrite list_lookup_fmap, Hi.
Qed.

Lemma ids_delete l i : id <$> delete i l = delete i (id <$> l).
Proof. revert i. induction l as [|m l IH]; intros [|i]; cbn; f_equal; auto. Qed.

(** What each route does to the ids, to the counter, and whether it
    hands out an id. *)
Lemma post_ids b st :
  let st' := (post b st).1 in
  (ids st' = ids st ∧ nextId st' = nextId st ∧ created (post b st).2 = [])
  ∨ (ids st' = ids st ++ [nextId st] ∧ nextId st' = nextId st + 1
     ∧ created (post b st).2 = [nextId st]).
Proof.
  destruct (decide (valid b)) as [Hv|Hv].
  - right. rewrite post_valid by done.
    destruct (create_valid b st Hv) as (n & d & _ & _ & ->). cbn.
    unfold ids. cbn. by rewrite fmap_app.
  - left. by destruct (post_invalid b st Hv) as [->|(errs & _ & ->)].
Qed.

Lemma put_ids p b st :
  let st' := (put p b st).1 in
  ids st' = ids st ∧ nextId st' = nextId st ∧ created (put p b st).2 = [].
Proof.
  destruct (decide (valid b)) as [Hv|Hv].
  - rewrite put_valid by done.
    destruct (list_find (has_id (Number p)) (menu st)) as [[idx old]|] eqn:Hf.
    + destruct (update_valid p b st idx old Hv Hf) as (n & d & _ & _ & ->). cbn.
      split; [|done]. unfold ids. cbn.
      apply find_has_id in Hf as [Hi _]. by apply (ids_insert _ _ old).
    + by rewrite update_unknown.
  - by destruct (put_invalid p b st Hv) as [->|(errs & _ & ->)].
Qed.

Lemma delete_ids p st :
  let st' := (delete_by_id p st).1 in
  (ids st' = ids st ∨ ∃ i, ids st' = delete i (ids st))
  ∧ nextId st' = nextId st
  ∧ created (delete_by_id p st).2 = [].
Proof.
  unfold delete_by_id, delete_item.
  destruct (list_find _ _) as [[idx old]|]; cbn.
  - split; [|done]. right. exists idx. apply ids_delete.
  - split; [by left|done].
Qed.

Lemma get_by_id_state p st :
  (get_by_id p st).1 = st ∧ created (get_by_id p st).2 = [].
Proof. unfold get_by_id, get_item. by destruct (list_find _ _) as [[idx it]|]. Qed.

Lemma handle_invariant r st : invariant st → invariant (handle r st).1.
Proof.
  intros (Hnd & Hlt & Hpos). destruct r as [|p|b|p b|p| |]; cbn.
  - done.
  - by rewrite (proj1 (get_by_id_state p st)).
  - destruct (post_ids b st) as [(Hi & Hn & _)|(Hi & Hn & _)];
      unfold invariant; rewrite Hi, Hn; [done|].
    split_and!; [| |lia].
    + apply NoDup_app. split_and!; [done| |apply NoDup_singleton].
      intros z Hz ->%list_elem_of_singleton.
      rewrite Forall_forall in Hlt. apply Hlt in Hz. lia.
    + apply Forall_app. split; [|repeat constructor; lia].
      eapply Forall_impl; [done|]. cbn. lia.
  - destruct (put_ids p b st) as (Hi & Hn & _).
    unfold invariant. by rewrite Hi, Hn.
  - destruct (delete_ids p st) as ([Hi|[i Hi]] & Hn & _);
      unfold invariant; rewrite Hi, Hn; [done|]. split_and!; [| |done].
    + eapply sublist_NoDup; [|apply sublist_delete]. done.
    + by apply Forall_delete.
  - done.
  - done.
Qed.

Lemma run_invariant rs st : invariant st → invariant (run_requests rs st).1.
Proof.
  revert st. induction rs as [|r rs IH]; intros st Hinv; [done|]. cbn.
  pose proof (handle_invariant r st Hinv) as H1.
  destruct (handle r st) as [st1 resp]. specialize (IH st1 H1).
  by destruct (run_requests rs st1).
Qed.

(** In every state the service can reach, ids are distinct and below
    the counter. *)
Lemma reachable_invariant rs : invariant (run_requests rs seed).1.
Proof. apply run_invariant, seed_invariant. Qed.

(** A stored id is addressed by its decimal numeral. *)
Lemma numeral_has_id m : 0 < id m → has_id (Number (numeral (id m))) m.
Proof.
  intros Hpos. unfold numeral.
  destruct (id m) as [|q|q] eqn:E; [lia| |lia].
  cbn [Z.to_pos]. rewrite Number_numeral. by apply has_id_of_Z.
Qed.

Lemma reachable_addressable rs m :
  m ∈ menu (run_requests rs seed).1 → has_id (Number (numeral (id m))) m.
Proof.
  intros Hm. apply numeral_has_id.
  pose proof (reachable_invariant rs) as (_ & Hlt & _).
  rewrite Forall_forall in Hlt.
  apply (Hlt (id m)). by apply list_elem_of_fmap_2.
Qed.

(** The category and the ingredients are stored as they were validated. *)
Lemma handle_fields r st :
  Forall (λ m, category_ok m && ingredients_ok m = true) (menu st) →
  Forall (λ m, category_ok m && ingredients_ok m = true) (menu (handle r st).1).
Proof.
  assert (∀ b, valid b → ∀ m, category m = get "category" b →
            ingredients m = get "ingredients" b →
            category_ok m && ingredients_ok m = true) as Hok.
  { intros b (_ & _ & (s & Hs & Hin) & (l & Hl & Hlen))%valid_inv m Hc Hi.
    unfold category_ok, ingredients_ok. rewrite Hc, Hi, Hs, Hl.
    by rewrite !bool_decide_true. }
  intros Hall. destruct r as [|p|b|p b|p| |]; cbn.
  - done.
  - by rewrite (proj1 (get_by_id_state p st)).
  - destruct (decide (valid b)) as [Hv|Hv].
    + rewrite post_valid by done.
      destruct (create_valid b st Hv) as (n & d & _ & _ & ->). cbn.
      apply Forall_app. split; [done|]. constructor; [|done].
      by apply (Hok b).
    + by destruct (post_invalid b st Hv) as [->|(errs & _ & ->)].
  - destruct (decide (valid b)) as [Hv|Hv].
    + rewrite put_valid by done.
      destruct (list_find (has_id (Number p)) (menu st)) as [[idx old]|] eqn:Hf.
      * destruct (update_valid p b st idx old Hv Hf) as (n & d & _ & _ & ->).
        cbn. apply Forall_insert; [done|]. by apply (Hok b).
      * by rewrite update_unknown.
    + by destruct (put_invalid p b st Hv) as [->|(errs & _ & ->)].
  - unfold delete_by_id, delete_item.
    destruct (list_find _ _) as [[idx old]|]; cbn; [|done].
    by apply Forall_delete.
  - done.
  - done.
Qed.

Lemma reachable_fields rs :
  Forall (λ m, category_ok m && ingredients_ok m = true)
         (menu (run_requests rs seed).1).
Proof.
  assert (∀ st, Forall (λ m, category_ok m && ingredients_ok m = true) (menu st) →
            Forall (λ m, category_ok m && ingredients_ok m = true)
                   (menu (run_requests rs st).1)) as H.
  { induction rs as [|r rs IH]; intros st Hst; [done|]. cbn.
    pose proof (handle_fields r st Hst) as H1.
    destruct (handle r st) as [st1 resp]. specialize (IH st1 H1).
    by destruct (run_requests rs st1). }
  apply H. cbn. by repeat constructor.
Qed.

Lemma handle_created r st :
  let (st', resp) := handle r st in
  (created resp = [] ∧ nextId st' = nextId st)
  ∨ (created resp = [nextId st] ∧ nextId st' = nextId st + 1).
Proof.
  destruct r as [|p|b|p b|p| |]; cbn.
  - by left.
  - destruct (get_by_id_state p st) as [H1 H2].
    destruct (get_by_id p st) as [st' resp]. cbn in *. subst. by left.
  - destruct (post_ids b st) as [(_ & Hn & Hc)|(_ & Hn & Hc)];
      destruct (post b st) as [st' resp]; cbn in *; [by left|by right].
  - destruct (put_ids p b st) as (_ & Hn & Hc).
    destruct (put p b st) as [st' resp]. by left.
  - destruct (delete_ids p st) as (_ & Hn & Hc).
    destruct (delete_by_id p st) as [st' resp]. by left.
  - by left.
  - by left.
Qed.

Lemma max_id_nonneg (l : list Z) : 0 ≤ max_id l.
Proof. unfold max_id. induction l; simpl foldr; lia. Qed.

Lemma max_id_app (l1 l2 : list Z) :
  max_id (l1 ++ l2) = Z.max (max_id l1) (max_id l2).
Proof.
  induction l1 as [|z l1 IH].
  - pose proof (max_id_nonneg l2). change (max_id []) with 0.
    rewrite app_nil_l. lia.
  - change (max_id ((z :: l1) ++ l2)) with (Z.max z (max_id (l1 ++ l2))).
    change (max_id (z :: l1)) with (Z.max z (max_id l1)). lia.
Qed.

(** The counter is one above the largest id handed out so far. *)
Lemma run_assigned_from rs st (A : list Z) :
  max_id A = nextId st - 1 →
  Forall (λ z, z < nextId st) A →
  let (st', resps) := run_requests rs st in
  max_id (A ++ flat_map created resps) = nextId st' - 1
  ∧ Forall (λ z, z < nextId st') (A ++ flat_map created resps).
Proof.
  revert st A. induction rs as [|r rs IH]; intros st A Hmax Hlt; cbn.
  - by rewrite app_nil_r.
  - pose proof (handle_created r st) as Hr.
    destruct (handle r st) as [st1 resp].
    specialize (IH st1 (A ++ created resp)).
    destruct (run_requests rs st1) as [st2 resps]. cbn.
    rewrite app_assoc. apply IH.
    + destruct Hr as [[-> ->]|[-> ->]]; [by rewrite app_nil_r|].
      rewrite max_id_app.
      change (max_id [nextId st]) with (Z.max (nextId st) 0).
      pose proof (max_id_nonneg A). lia.
    + destruct Hr as [[-> ->]|[-> ->]]; [by rewrite app_nil_r|].
      apply Forall_app. split; [|repeat constructor; lia].
      eapply Forall_impl; [done|]. cbn. lia.
Qed.

Lemma run_assigned rs :
  let (st, resps) := run_requests rs seed in
  max_id (assigned resps) = nextId st - 1
  ∧ Forall (λ z, z < nextId st) (assigned resps).
Proof.
  apply (run_assigned_from rs seed (ids seed)); [done|].
  cbn. repeat constructor.
Qed.

End store.

(** ** The service's properties *)

Section service.
Import JS ExpressValidator Server.
Implicit Types (b : gmap string value) (st : state) (p : string) (l : list item).

(** *** Update of an id that is not stored *)

(** C1, counterexample.  The seed holds no item with id 999, and yet a
    PUT /api/menu/999 with an empty body is answered 400 and not 404:
    the validators and [handleValidation] run before the handler looks
    the id up. *)
Lemma put_unknown_id_invalid_body_400 :
  (∀ m, m ∈ menu seed → ¬ has_id (Number "999") m)
  ∧ status (put "999" ∅ seed).2 = 400
  ∧ status (put "999" ∅ seed).2 ≠ 404.
Proof.
  split; [|by vm_compute].
  apply find_None_iff. by vm_compute.
Qed.

(** C1, amended.  A PUT whose path id matches no stored item is answered
    404 when the body passes validation, 400 with the errors when
    validation reports any, and 500 when a validator throws on the body;
    the store is unchanged in all three cases. *)
Theorem put_unknown_id st p b :
  (∀ m, m ∈ menu st → ¬ has_id (Number p) m) →
  (valid b → put p b st = (st, not_found))
  ∧ (∀ e es, validation b = Some (e :: es) →
       put p b st =
         (st, {| status := 400;
                 payload := JErrors (map (λ e, (path e, msg e)) (e :: es)) |}))
  ∧ (validation b = None → put p b st = (st, internal_error)).
Proof.
  intros Hno%find_None_iff. split_and!.
  - intros Hv. rewrite put_valid by done. by apply update_unknown.
  - intros e es He. by rewrite put_eq, He.
  - intros He. by rewrite put_eq, He.
Qed.

Lemma put_unknown_id_witness :
  put "999" veggie_wrap seed = (seed, not_found)
  ∧ status (put "999" ∅ seed).2 = 400
  ∧ put "999" name_hides_toString seed = (seed, internal_error).
Proof.
  assert (∀ m, m ∈ menu seed → ¬ has_id (Number "999") m) as H.
  { apply find_None_iff. vm_compute. reflexivity. }
  split; [|split].
  - apply (put_unknown_id seed "999" veggie_wrap H). vm_compute. reflexivity.
  - destruct (validation ∅) as [[|e es]|] eqn:E;
      [vm_compute in E; discriminate E
      |
      |vm_compute in E; discriminate E].
    destruct (put_unknown_id seed "999" ∅ H) as (_ & H400 & _).
    rewrite (H400 e es E). reflexivity.
  - apply (put_unknown_id seed "999" name_hides_toString H).
    vm_compute. reflexivity.
Defined.

(** *** Stored items and the field constraints *)

(** C2, at the failing input.  The name "a  " has three characters and
    passes the rule "name min 3 chars"; the handler then stores
    [name.trim()], which is "a".  The stored item breaks the constraint
    that a name has at least 3 characters. *)
Theorem create_stores_short_name :
  valid padded_name
  ∧ ∃ it, post padded_name seed =
            ({| menu := menu seed ++ [it]; nextId := 4 |},
             {| status := 201; payload := JItem it |})
          ∧ name it = "a"
          ∧ meets_constraints it = false.
Proof.
  split; [by vm_compute|].
  eexists. split; [by vm_compute|]. split; by vm_compute.
Qed.

(** *** The [available] field of a created item *)

(** C3, counterexample.  The payload carries [available: "false"], a
    string and not a boolean; it passes [isBoolean], [toBoolean] turns
    it into the boolean false, and the item is created with
    [available = false], not true. *)
Lemma create_available_string_false :
  valid available_false_string
  ∧ get "available" available_false_string = VStr "false"
  ∧ ∃ it, (post available_false_string seed).2 =
            {| status := 201; payload := JItem it |}
          ∧ available it = false.
Proof.
  split; [by vm_compute|]. split; [by vm_compute|].
  eexists. split; by vm_compute.
Qed.

(** C3, amended.  For a create request that passes validation, the
    created item's [available] is true when the payload's field is
    absent or an array, it is the payload's value when that is a
    boolean, and otherwise the payload's value prints as "true",
    "false", "1" or "0" and the item stores the boolean [toBoolean]
    makes of it. *)
Theorem create_available st b :
  valid b →
  ∃ it, (post b st).2 = {| status := 201; payload := JItem it |}
      ∧ match get "available" b with
        | VUndefined | VArr _ => available it = true
        | VBool a => available it = a
        | v => ∃ s, toString v = Some s
                 ∧ s ∈ ["true"; "false"; "1"; "0"]
                 ∧ available it = Validator.toBoolean s
        end.
Proof.
  intros Hv. pose proof (valid_available b Hv) as Ha.
  assert (validation b ≠ None) as Hran by (unfold valid in Hv; by rewrite Hv).
  pose proof (sanitize_available b Hran) as Hs.
  rewrite post_valid by done.
  destruct (create_valid b st Hv) as (n & d & _ & _ & ->). cbn zeta. cbn [snd].
  eexists. split; [done|]. cbn [available].
  destruct (get "available" b) as [| |a| | | |].
  - by rewrite Hs.
  - destruct Hs as (t & Hs & ->), Ha as (t' & Ha & Hin).
    exists t. by simplify_eq.
  - destruct Hs as (t & Hs & ->). destruct a; cbn in Hs; by simplify_eq.
  - destruct Hs as (t & Hs & ->), Ha as (t' & Ha & Hin).
    exists t. by simplify_eq.
  - destruct Hs as (t & Hs & ->), Ha as (t' & Ha & Hin).
    exists t. by simplify_eq.
  - by destruct Hs as (strs & _ & ->).
  - destruct Hs as (t & Hs & ->), Ha as (t' & Ha & Hin).
    exists t. by simplify_eq.
Qed.

Lemma create_available_witness :
  ∃ it, (post available_false_string seed).2 =
          {| status := 201; payload := JItem it |}
      ∧ match get "available" available_false_string with
        | VUndefined | VArr _ => available it = true
        | VBool a => available it = a
        | v => ∃ s, toString v = Some s
                 ∧ s ∈ ["true"; "false"; "1"; "0"]
                 ∧ available it = Validator.toBoolean s
        end.
Proof.
  apply (create_available seed available_false_string).
  vm_compute. reflexivity.
Defined.

(** *** Validation errors *)

(** C4.  The payload with a two-character name, a five-character
    description, price -1, category "snack" and no ingredient is
    answered 400 with exactly five errors, one per field. *)
Theorem post_five_violations st :
  post five_violations st =
  (st, {| status := 400;
          payload := JErrors
            [("name", "name min 3 chars");
             ("description", "description min 10 chars");
             ("price", "price must be number > 0");
             ("category",
              "category must be appetizer, entree, dessert or beverage");
             ("ingredients",
              "ingredients must be array with at least 1 item")] |}).
Proof.
  rewrite post_eq.
  assert (validation five_violations = Some
          [ {| path := "name"; msg := "name min 3 chars" |};
            {| path := "description"; msg := "description min 10 chars" |};
            {| path := "price"; msg := "price must be number > 0" |};
            {| path := "category";
               msg := "category must be appetizer, entree, dessert or beverage" |};
            {| path := "ingredients";
               msg := "ingredients must be array with at least 1 item" |} ]) as H
    by (by vm_compute).
  by rewrite H.
Qed.

(** C5, counterexample.  The payload has no price, and its name is an
    object whose [toString] is [null]: the validator that prints the
    name throws, and the create and the update are answered 500, not
    400. *)
Lemma missing_field_validator_throws_500 :
  "price" ∈ required
  ∧ name_hides_toString !! "price" = None
  ∧ post name_hides_toString seed = (seed, internal_error)
  ∧ put "1" name_hides_toString seed = (seed, internal_error)
  ∧ status internal_error ≠ 400.
Proof.
  split_and!; [|by vm_compute..].
  apply (bool_decide_unpack _). by vm_compute.
Qed.

(** C5, amended.  A create or an update whose payload lacks a required
    field leaves the store as it was.  It is answered 400 when validation
    runs to its end, which it does whenever none of name, description,
    price, category and available holds an object with a property named
    toString, or an array with such an object inside; it is answered 500
    when a validator throws on the body. *)
Theorem missing_required_field st p b f :
  f ∈ required → b !! f = None →
  ((∀ k, k ∈ ["name"; "description"; "price"; "category"; "available"] →
         hides_toString (get k b) = false) →
   validation b ≠ None)
  ∧ (validation b ≠ None →
     ((post b st).1 = st ∧ status (post b st).2 = 400)
     ∧ ((put p b st).1 = st ∧ status (put p b st).2 = 400))
  ∧ (validation b = None →
     post b st = (st, internal_error) ∧ put p b st = (st, internal_error)).
Proof.
  intros Hf Hb. rewrite post_eq, put_eq. split_and!.
  - apply validation_plain.
  - intros Hran. destruct (validation b) as [errs|] eqn:E; [|done].
    pose proof (missing_reported b f errs Hf Hb E) as Hin.
    destruct errs as [|e es]; [by apply elem_of_nil in Hin|done].
  - by intros ->.
Qed.

Lemma missing_required_field_witness :
  (((post (delete "price" veggie_wrap) seed).1 = seed
    ∧ status (post (delete "price" veggie_wrap) seed).2 = 400)
   ∧ ((put "1" (delete "price" veggie_wrap) seed).1 = seed
      ∧ status (put "1" (delete "price" veggie_wrap) seed).2 = 400))
  ∧ (post name_hides_toString seed = (seed, internal_error)
     ∧ put "1" name_hides_toString seed = (seed, internal_error)).
Proof.
  split.
  - apply (missing_required_field seed "1" (delete "price" veggie_wrap) "price").
    + apply (bool_decide_unpack _). vm_compute. exact I.
    + vm_compute. reflexivity.
    + vm_compute. discriminate.
  - apply (missing_required_field seed "1" name_hides_toString "price").
    + apply (bool_decide_unpack _). vm_compute. exact I.
    + vm_compute. reflexivity.
    + vm_compute. reflexivity.
Defined.

(** *** Creation *)

(** C6.  After any sequence of requests, a create that passes validation
    appends one item to the collection, and the id it returns is one
    above the largest id assigned so far, hence new; it is 3 on a fresh
    instance. *)
Theorem create_assigns_next_id rs b :
  valid b →
  let (st, resps) := run_requests rs seed in
  ∃ it,
    post b st = ({| menu := menu st ++ [it]; nextId := nextId st + 1 |},
                 {| status := 201; payload := JItem it |})
    ∧ List.length (menu (post b st).1) = S (List.length (menu st))
    ∧ (id it ∉ assigned resps)
    ∧ id it = max_id (assigned resps) + 1
    ∧ (rs = [] → id it = 3).
Proof.
  intros Hv. pose proof (run_assigned rs) as Ha.
  destruct (run_requests rs seed) as [st resps] eqn:Hrun.
  destruct Ha as [Hmax Hlt].
  rewrite post_valid by done.
  destruct (create_valid b st Hv) as (n & d & _ & _ & ->). cbn zeta.
  eexists. split; [done|]. cbn [fst menu id].
  split_and!.
  - rewrite length_app. cbn. lia.
  - intros Hin. rewrite Forall_forall in Hlt. apply Hlt in Hin. lia.
  - lia.
  - intros ->. cbn in Hrun. by simplify_eq.
Qed.

Lemma create_assigns_next_id_witness :
  ∃ it,
    post veggie_wrap seed =
      ({| menu := menu seed ++ [it]; nextId := nextId seed + 1 |},
       {| status := 201; payload := JItem it |})
    ∧ List.length (menu (post veggie_wrap seed).1) = S (List.length (menu seed))
    ∧ (id it ∉ assigned [])
    ∧ id it = max_id (assigned []) + 1
    ∧ (@nil request = [] → id it = 3).
Proof.
  apply (create_assigns_next_id [] veggie_wrap).
  vm_compute. reflexivity.
Defined.

(** C7.  After any sequence of requests, a create that passes validation
    returns an item that a GET by its id returns unchanged; that item
    carries the payload's name and description trimmed, its price made
    a number by [toFloat], and its category and ingredients as given. *)
Theorem create_then_get rs b :
  valid b →
  ∃ it st',
    post b (run_requests rs seed).1 =
      (st', {| status := 201; payload := JItem it |})
    ∧ get_by_id (numeral (id it)) st' =
        (st', {| status := 200; payload := JItem it |})
    ∧ (∀ p, has_id (Number p) it →
            get_by_id p st' = (st', {| status := 200; payload := JItem it |}))
    ∧ (∃ n d, get "name" b = VStr n ∧ get "description" b = VStr d
              ∧ name it = trim n ∧ description it = trim d)
    ∧ match get "price" b with
      | VArr l =>
          ∃ strs, mapM toString l = Some strs
            ∧ price it = VArr (map (λ s, VNum (Validator.toFloat s)) strs)
      | v =>
          ∃ s, toString v = Some s ∧ price it = VNum (Validator.toFloat s)
      end
    ∧ category it = get "category" b
    ∧ ingredients it = get "ingredients" b.
Proof.
  intros Hv. pose proof (reachable_invariant rs) as (Hnd & Hlt & Hpos).
  assert (validation b ≠ None) as Hran by (unfold valid in Hv; by rewrite Hv).
  set (st := (run_requests rs seed).1) in *.
  rewrite post_valid by done.
  destruct (create_valid b st Hv) as (n & d & Hn & Hd & ->). cbn zeta.
  eexists _, _. split; [done|].
  match goal with
  | |- _ ∧ (∀ p, has_id _ ?it → get_by_id p ?st' = _) ∧ _ =>
      assert (∀ p, has_id (Number p) it →
                get_by_id p st' = (st', {| status := 200; payload := JItem it |}))
        as Hget
  end.
  { intros p Hp. unfold get_by_id, get_item. cbn [menu].
    erewrite find_unique; [done| | |done].
    - rewrite fmap_app. apply NoDup_app.
      split_and!; [done| |apply NoDup_singleton].
      intros z Hz ->%list_elem_of_singleton.
      rewrite Forall_forall in Hlt. apply Hlt in Hz. cbn in Hz. lia.
    - by rewrite lookup_app_r, Nat.sub_diag. }
  split_and!.
  - apply Hget. by apply numeral_has_id.
  - done.
  - by exists n, d.
  - cbn [price]. by apply sanitize_price.
  - done.
  - done.
Qed.

Lemma create_then_get_witness :
  ∃ it st',
    post veggie_wrap seed = (st', {| status := 201; payload := JItem it |})
    ∧ get_by_id "3" st' = (st', {| status := 200; payload := JItem it |}).
Proof.
  assert (valid veggie_wrap) as Hv by (vm_compute; reflexivity).
  destruct (create_then_get [] veggie_wrap Hv) as (it & st' & Hpost & _ & Hget & _).
  exists it, st'. split; [exact Hpost|]. apply Hget.
  apply (f_equal (λ x, match payload x.2 with JItem i => id i | _ => 0 end))
    in Hpost.
  vm_compute in Hpost. unfold has_id.
  replace (id it) with 3 by exact Hpost. vm_compute. reflexivity.
Defined.

(** *** Deletion *)

(** C8.  After any sequence of requests, deleting the id of a stored
    item returns that item and removes it and nothing else: the items
    before it and after it stay as they were, in order.  Deleting the
    same id once more is answered 404. *)
Theorem delete_removes_exactly_one rs p it :
  let st := (run_requests rs seed).1 in
  it ∈ menu st → has_id (Number p) it →
  ∃ l1 l2,
    menu st = l1 ++ it :: l2
    ∧ delete_by_id p st =
        ({| menu := l1 ++ l2; nextId := nextId st |},
         {| status := 200; payload := JItem it |})
    ∧ delete_by_id p {| menu := l1 ++ l2; nextId := nextId st |} =
        ({| menu := l1 ++ l2; nextId := nextId st |}, not_found).
Proof.
  intros st [i Hi]%list_elem_of_lookup Hp.
  pose proof (reachable_invariant rs) as [Hnd _].
  fold st in Hnd. unfold ids in Hnd.
  pose proof (find_unique _ _ _ _ Hnd Hi Hp) as Hf.
  exists (take i (menu st)), (drop (S i) (menu st)).
  assert (menu st = take i (menu st) ++ it :: drop (S i) (menu st)) as Hsplit.
  { by rewrite <- (take_drop_middle _ _ _ Hi) at 1. }
  split_and!; [done| |].
  - unfold delete_by_id, delete_item. rewrite Hf. by rewrite delete_take_drop.
  - unfold delete_by_id, delete_item. cbn [menu].
    assert (list_find (has_id (Number p))
              (take i (menu st) ++ drop (S i) (menu st)) = None) as ->; [|done].
    apply find_None_iff. intros m Hm Hpm.
    pose proof (has_id_same _ _ _ Hp Hpm) as Heq.
    rewrite Hsplit, fmap_app, fmap_cons in Hnd.
    apply NoDup_app in Hnd as (_ & Hdisj & [Hnotin _]%NoDup_cons).
    apply elem_of_app in Hm as [Hm|Hm].
    + apply (Hdisj (id m)); [by apply list_elem_of_fmap_2|]. rewrite Heq. left.
    + apply Hnotin. rewrite Heq. by apply list_elem_of_fmap_2.
Qed.

Lemma delete_removes_exactly_one_witness :
  ∃ it, it ∈ menu seed ∧ has_id (Number "1") it ∧
  ∃ l1 l2,
    menu seed = l1 ++ it :: l2
    ∧ delete_by_id "1" seed =
        ({| menu := l1 ++ l2; nextId := nextId seed |},
         {| status := 200; payload := JItem it |})
    ∧ delete_by_id "1" {| menu := l1 ++ l2; nextId := nextId seed |} =
        ({| menu := l1 ++ l2; nextId := nextId seed |}, not_found).
Proof.
  eexists. split; [|split]; [| |apply (delete_removes_exactly_one [] "1")].
  - cbn. left.
  - vm_compute. reflexivity.
  - cbn. left.
  - vm_compute. reflexivity.
Defined.

(** *** Lookup by id *)

(** C9, counterexample.  The path id "1.5" denotes no integer, and yet
    a PUT /api/menu/1.5 with an empty body is answered 400 and not 404:
    the body is validated before the id is looked up. *)
Lemma put_non_integer_id_invalid_body_400 :
  is_integer (Number "1.5") = false
  ∧ status (put "1.5" ∅ seed).2 = 400
  ∧ status (put "1.5" ∅ seed).2 ≠ status not_found.
Proof. by vm_compute. Qed.

(** C9, amended.  GET, DELETE and the update handler coerce the path id
    to a number and look that number up by strict equality with the
    stored ids.  A number that equals the integer [z] finds the first
    stored item whose id is [z]: GET returns it, DELETE removes the item
    at its index, the update handler replaces it by an item with the
    same id; with no such item they answer 404.  A number that is no
    integer matches no stored id, and the three answer 404 with the
    store unchanged, never a rejection of the id.  A PUT reaches its
    handler when the body passes validation, and is answered 400
    whatever the id when validation reports errors. *)
Theorem id_lookup_is_exact st :
  (∀ p,
     get_by_id p st = get_item (Number p) st
     ∧ delete_by_id p st = delete_item (Number p) st
     ∧ (∀ b, valid b → put p b st = update_item (Number p) (sanitize b) st)
     ∧ (∀ b e es, validation b = Some (e :: es) →
          (put p b st).1 = st ∧ status (put p b st).2 = 400))
  ∧ (∀ n, is_integer n = true → ∃ z, strict_equal (of_Z z) n = true)
  ∧ (∀ n z, strict_equal (of_Z z) n = true →
       (∀ m, has_id n m ↔ id m = z)
       ∧ get_item n st =
           match list_find (λ m, id m = z) (menu st) with
           | Some (_, it) => (st, {| status := 200; payload := JItem it |})
           | None => (st, not_found)
           end
       ∧ delete_item n st =
           match list_find (λ m, id m = z) (menu st) with
           | Some (i, it) =>
               ({| menu := delete i (menu st); nextId := nextId st |},
                {| status := 200; payload := JItem it |})
           | None => (st, not_found)
           end
       ∧ ∀ b,
           match list_find (λ m, id m = z) (menu st) with
           | Some (i, old) =>
               valid b →
               ∃ upd, id upd = z
                 ∧ update_item n (sanitize b) st =
                     ({| menu := <[i := upd]> (menu st); nextId := nextId st |},
                      {| status := 200; payload := JItem upd |})
           | None => update_item n b st = (st, not_found)
           end)
  ∧ (∀ n, is_integer n = false →
       (∀ m, ¬ has_id n m)
       ∧ get_item n st = (st, not_found)
       ∧ delete_item n st = (st, not_found)
       ∧ ∀ b, update_item n b st = (st, not_found)).
Proof.
  split_and!.
  - intros p. split_and!; [done|done| |].
    + intros b Hv. by rewrite put_valid.
    + intros b e es He. by rewrite put_eq, He.
  - apply integer_denotes.
  - intros n z Hz. split_and!.
    + intros m. by apply has_id_denotes.
    + unfold get_item. by rewrite (find_denotes n z).
    + unfold delete_item. by rewrite (find_denotes n z).
    + intros b. rewrite <- (find_denotes n z) by done.
      destruct (list_find _ _) as [[i old]|] eqn:Hf.
      * intros Hv.
        destruct (update_item_valid n b st i old Hv Hf) as (a & d & _ & _ & ->).
        eexists. split; [|done]. cbn.
        apply find_has_id in Hf as [_ Hold]. by apply (has_id_denotes n z).
      * unfold update_item. by rewrite Hf.
  - intros n Hn.
    assert (∀ m, ¬ has_id n m) as Hno.
    { intros m Hm%strict_equal_integer. congruence. }
    assert (list_find (has_id n) (menu st) = None) as Hf.
    { apply find_None_iff. auto. }
    split_and!; [done| | |].
    + unfold get_item. by rewrite Hf.
    + unfold delete_item. by rewrite Hf.
    + intros b. unfold update_item. by rewrite Hf.
Qed.

Lemma id_lookup_is_exact_witness :
  get_item (Dec 15 (-1)) seed = (seed, not_found)
  ∧ delete_item (Dec 15 (-1)) seed = (seed, not_found)
  ∧ (∀ b, update_item (Dec 15 (-1)) b seed = (seed, not_found))
  ∧ ∃ it, get_item (Dec 20 (-1)) seed
          = (seed, {| status := 200; payload := JItem it |})
        ∧ id it = 2.
Proof.
  destruct (id_lookup_is_exact seed) as (_ & _ & Hint & Hnon).
  destruct (Hnon (Dec 15 (-1))) as (_ & Hg & Hd & Hu);
    [vm_compute; reflexivity|].
  split; [exact Hg|]. split; [exact Hd|]. split; [exact Hu|].
  destruct (Hint (Dec 20 (-1)) 2) as (_ & Hg2 & _);
    [vm_compute; reflexivity|].
  eexists. split; [exact Hg2|]. reflexivity.
Defined.

(** *** Update keeps the id *)

(** C10.  An update leaves the id of every stored item as it was; an
    [id] field in the payload changes nothing in what the update does;
    and the item an update returns has the id of the path. *)
Theorem update_preserves_id st p b v :
  ids (put p b st).1 = ids st
  ∧ put p (<["id" := v]> b) st = put p b st
  ∧ ∀ it, (put p b st).2 = {| status := 200; payload := JItem it |} →
          has_id (Number p) it.
Proof.
  split_and!.
  - apply put_ids.
  - apply put_agree. intros k Hk. rewrite get_insert, decide_False; [done|].
    intros ->. revert Hk. change (¬ "id" ∈ field <$> menuValidators).
    apply (bool_decide_unpack _). vm_compute. exact I.
  - intros it. destruct (decide (valid b)) as [Hv|Hv].
    + rewrite put_valid by done.
      destruct (list_find (has_id (Number p)) (menu st)) as [[idx old]|] eqn:Hf.
      * destruct (update_valid p b st idx old Hv Hf) as (n & d & _ & _ & ->).
        cbn. intros Heq.
        apply (f_equal (λ r, match payload r with
                             | JItem i => id i
                             | _ => 0
                             end)) in Heq.
        cbn in Heq. apply find_has_id in Hf as [_ Hold].
        unfold has_id in *. by rewrite <- Heq.
      * by rewrite update_unknown.
    + by destruct (put_invalid p b st Hv) as [->|(errs & _ & ->)].
Qed.

End service.

(* ================================================================== *)
(** * Further properties of the routes *)
(* ================================================================== *)

(** ** What validation accepts and what the sanitizers leave *)

Section accepted.
Import JS ExpressValidator Server.
Implicit Types (b : gmap string value) (st : state) (p : string).

Lemma if_nil_true {A} (c : bool) (x : A) :
  (if c then [] else [x]) = [] ↔ c = true.
Proof. by destruct c. Qed.

(** A standard validator passes on a list of values when each of them
    prints, and prints as a string the validator accepts. *)
Lemma printed_Forall (P : string → Prop) (xs : list value) strs :
  mapM toString xs = Some strs →
  Forall P strs ↔ Forall (λ x, ∃ s, toString x = Some s ∧ P s) xs.
Proof.
  intros H%mapM_Some_1. induction H as [|x s xs strs Hx _ IH].
  - split; constructor.
  - rewrite !Forall_cons, IH. split.
    + intros [Hs Hall]. split; [by exists s|done].
    + intros [(s' & Hs' & HP) Hall]. split; [|done]. by simplify_eq.
Qed.

Lemma standard_passes (f : string → bool) (m : string) (xs : list value) :
  (∃ strs, mapM toString xs = Some strs
     ∧ flat_map (λ s, if f s then [] else [m]) strs = [])
  ↔ Forall (λ x, ∃ s, toString x = Some s ∧ f s = true) xs.
Proof.
  split.
  - intros (strs & Hm & Hf%flat_map_nil).
    apply (printed_Forall _ _ _ Hm).
    eapply Forall_impl; [exact Hf|]. cbn. intros s. apply if_nil_true.
  - intros Hall.
    assert (is_Some (mapM toString xs)) as [strs Hm].
    { apply mapM_is_Some. eapply Forall_impl; [exact Hall|].
      intros x (s & Hs & _). by exists s. }
    exists strs. split; [done|]. apply flat_map_nil.
    apply (printed_Forall _ _ _ Hm) in Hall.
    eapply Forall_impl; [exact Hall|]. cbn. intros s. apply if_nil_true.
Qed.

(** The price of a valid body is present, and it, or each of its
    elements, prints as a float above 0. *)
Lemma valid_price_printed b :
  valid b →
  get "price" b ≠ VUndefined
  ∧ Forall (λ x, ∃ s, toString x = Some s
                   ∧ Validator.isFloat (Some (of_Z 0)) s = true)
           match get "price" b with
           | VArr xs => xs
           | _ => [get "price" b]
           end.
Proof.
  intros Hv%valid_Forall. unfold menuValidators in Hv.
  do 2 (apply Forall_cons in Hv as [_ Hv]).
  apply Forall_cons in Hv as [[? Hp] _].
  cbn -[toString] in Hp. split.
  - by by_field Hp (get "price" b).
  - by_field Hp (get "price" b); simplify_eq;
      try (constructor; [by eexists|constructor]).
    apply (standard_passes _ "price must be number > 0"). by eexists.
Qed.

(** X1.  A body passes validation exactly when: name is a string of at
    least 3 characters; description is a string of at least 10; price
    is present and it, or each element if it is an array, prints as a
    float above 0; category is one of the four strings; ingredients is
    an array with an element; and available is absent or it, or each
    element if it is an array, prints as "true", "false", "1" or "0". *)
Theorem valid_iff b :
  valid b ↔
    (∃ s, get "name" b = VStr s ∧ (3 ≤ String.length s)%nat)
    ∧ (∃ s, get "description" b = VStr s ∧ (10 ≤ String.length s)%nat)
    ∧ (get "price" b ≠ VUndefined
       ∧ Forall (λ x, ∃ s, toString x = Some s
                        ∧ Validator.isFloat (Some (of_Z 0)) s = true)
                match get "price" b with
                | VArr xs => xs
                | _ => [get "price" b]
                end)
    ∧ (∃ s, get "category" b = VStr s
            ∧ s ∈ ["appetizer"; "entree"; "dessert"; "beverage"])
    ∧ (∃ xs, get "ingredients" b = VArr xs ∧ (1 ≤ List.length xs)%nat)
    ∧ (get "available" b = VUndefined
       ∨ Forall (λ x, ∃ s, toString x = Some s
                        ∧ Validator.isBoolean s = true)
                match get "available" b with
                | VArr xs => xs
                | _ => [get "available" b]
                end).
Proof.
  split.
  - intros Hv. pose proof (valid_inv b Hv) as (Hn & Hd & Hc & Hi).
    pose proof (valid_price_printed b Hv) as Hp.
    apply valid_Forall in Hv. unfold menuValidators in Hv.
    do 5 (apply Forall_cons in Hv as [_ Hv]).
    apply Forall_cons in Hv as [[? Ha] _].
    cbn -[toString] in Ha.
    destruct Hp as [Hp Hpf]. split_and!; [done..|].
    by_field Ha (get "available" b); simplify_eq;
        try (by left);
        try (right; constructor; [by eexists|constructor]).
    right. apply (standard_passes _ "available must be boolean").
    by eexists.
  - intros ((n & Hn & Hnl) & (d & Hd & Hdl) & (Hp & Hpf) & (c & Hc & Hcin)
            & (xs & Hl & Hll) & Ha).
    apply valid_Forall. unfold menuValidators.
    repeat apply Forall_cons_2; [..|constructor]; cbn -[toString].
    + rewrite Hn. cbn. rewrite (bool_decide_false (n = "")).
      2:{ intros ->. cbn in Hnl. lia. }
      cbn. unfold Validator.isLength. rewrite bool_decide_true by done.
      by eexists.
    + rewrite Hd. cbn. rewrite (bool_decide_false (d = "")).
      2:{ intros ->. cbn in Hdl. lia. }
      cbn. unfold Validator.isLength. rewrite bool_decide_true by done.
      by eexists.
    + apply (standard_passes _ "price must be number > 0") in Hpf
        as (strs & Hm & Hf).
      destruct (get "price" b) as [| |a|x|s|l|o]; [done|..];
        cbn -[toString] in Hm |- *.
      5:{ repeat (first [rewrite Hm|rewrite Hf]; cbn -[toString]).
          by eexists. }
      all: destruct (toString _) as [s0|] eqn:E; [|done].
      all: cbn in Hm; injection Hm as <-; cbn -[toString] in Hf |- *.
      all: repeat (first [rewrite E|rewrite Hf]; cbn -[toString]);
        by eexists.
    + rewrite Hc. cbn. rewrite (bool_decide_false (c = "")).
      2:{ intros ->.
          repeat (apply elem_of_cons in Hcin as [?|Hcin]; [done|]).
          by apply elem_of_nil in Hcin. }
      cbn. unfold Validator.isIn. rewrite bool_decide_true by done.
      by eexists.
    + rewrite Hl. cbn. rewrite bool_decide_true by done. by eexists.
    + unfold chain_result. cbn -[toString].
      destruct Ha as [->|Ha]; [by eexists|].
      apply (standard_passes _ "available must be boolean") in Ha
        as (strs & Hm & Hf).
      destruct (get "available" b) as [| |a|x|s|l|o];
        cbn -[toString] in Hm |- *; [by eexists|..].
      5:{ repeat (first [rewrite Hm|rewrite Hf]; cbn -[toString]).
          by eexists. }
      all: destruct (toString _) as [s0|] eqn:E; [|done].
      all: cbn in Hm; injection Hm as <-; cbn -[toString] in Hf |- *.
      all: repeat (first [rewrite E|rewrite Hf]; cbn -[toString]);
        by eexists.
Qed.

(** *** A string that matches the float pattern has no comma *)

Lemma replace_comma_span s :
  Validator.replace_comma (span_digits s).2 = (span_digits s).2 →
  Validator.replace_comma s = s.
Proof.
  induction s as [|c s IH]; [done|]. cbn [span_digits].
  destruct (is_digit c) eqn:Hc; [|done].
  destruct (span_digits s) as [d r]. cbn in *. intros Hr.
  rewrite (IH Hr). by destruct c as [[] [] [] [] [] [] [] []].
Qed.

Lemma replace_comma_sign s neg t :
  match s with
  | String "-" u => (true, u)
  | String "+" u => (false, u)
  | _ => (false, s)
  end = (neg, t) →
  Validator.replace_comma t = t → Validator.replace_comma s = s.
Proof.
  destruct s as [|c u]; [by intros [= <- <-]|].
  destruct c as [[] [] [] [] [] [] [] []];
    intros [= <- <-] H; cbn in *; by rewrite ?H.
Qed.

Lemma replace_comma_exponent s x r :
  exponent_part s = Some (x, r) →
  Validator.replace_comma r = r → Validator.replace_comma s = s.
Proof.
  unfold exponent_part. destruct s as [|c s']; [done|].
  destruct (bool_decide (c = "e"%char) || bool_decide (c = "E"%char)) eqn:Hc;
    [|done].
  match goal with
  | |- context [let '(_, _) := ?m in _] => destruct m as [neg s''] eqn:Hsg
  end.
  destruct (span_digits s'') as [d r0] eqn:Hsp.
  destruct (bool_decide (d = "")); [done|]. intros [= _ <-] Hr.
  assert (Validator.replace_comma s'' = s'') as Hs''.
  { apply replace_comma_span. by rewrite Hsp. }
  pose proof (replace_comma_sign _ _ _ Hsg Hs'') as Hs'.
  apply orb_prop in Hc as [Hc|Hc]; apply bool_decide_eq_true_1 in Hc; subst c;
    cbn; by rewrite Hs'.
Qed.

Lemma float_test_no_comma s :
  Validator.float_test s = true → Validator.replace_comma s = s.
Proof.
  unfold Validator.float_test.
  set (s1 := match s with String "-" t | String "+" t => t | _ => s end).
  set (s2 := (span_digits s1).2).
  set (s3 := match s2 with String "." t => (span_digits t).2 | _ => s2 end).
  intros H4%bool_decide_eq_true_1.
  assert (Validator.replace_comma s3 = s3) as H3.
  { destruct (exponent_part s3) as [[x r]|] eqn:He.
    - apply (replace_comma_exponent _ _ _ He). by rewrite H4.
    - by rewrite H4. }
  assert (Validator.replace_comma s2 = s2) as H2.
  { subst s3. destruct s2 as [|c t] eqn:E2; [done|].
    destruct c as [[] [] [] [] [] [] [] []]; try done.
    cbn. by rewrite (replace_comma_span t H3). }
  assert (Validator.replace_comma s1 = s1) as H1 by by apply replace_comma_span.
  subst s1. clear -H1. destruct s as [|c t]; [done|].
  destruct c as [[] [] [] [] [] [] [] []]; try done; cbn; by rewrite H1.
Qed.

(** What [isFloat({gt: 0})] guarantees of [toFloat]. *)
Lemma isFloat_toFloat s :
  Validator.isFloat (Some (of_Z 0)) s = true →
  greater (Validator.toFloat s) (of_Z 0) = true.
Proof.
  unfold Validator.toFloat, Validator.isFloat.
  destruct (bool_decide (s ∈ _)); [done|].
  intros [Ht Hg]%andb_prop. rewrite Ht. cbn.
  by rewrite (float_test_no_comma s Ht) in Hg.
Qed.

Lemma valid_price b :
  valid b →
  match get "price" b with
  | VArr _ =>
      ∃ ns, get "price" (sanitize b) = VArr (VNum <$> ns)
            ∧ Forall (λ n, greater n (of_Z 0) = true) ns
  | _ => ∃ n, get "price" (sanitize b) = VNum n ∧ greater n (of_Z 0) = true
  end.
Proof.
  intros Hv.
  assert (validation b ≠ None) as Hran by (unfold valid in Hv; by rewrite Hv).
  pose proof (sanitize_price b Hran) as Hs.
  apply valid_price_printed in Hv as [_ Hp].
  destruct (get "price" b) as [| |b0|n|s|xs|o] eqn:E;
    try (destruct Hs as (t & Ht & ->);
         apply Forall_cons in Hp as [(t' & Ht' & Hx) _];
         eexists; split; [reflexivity|];
         apply isFloat_toFloat; by simplify_eq).
  destruct Hs as (strs & Hm & ->).
  exists (Validator.toFloat <$> strs). split.
  - f_equal. by rewrite <- list_fmap_compose.
  - apply Forall_fmap. apply (printed_Forall _ _ _ Hm) in Hp.
    eapply Forall_impl; [exact Hp|]. cbn.
    intros x. apply isFloat_toFloat.
Qed.

(** The item a 201, or the 200 of a PUT, carries takes its price from
    the sanitized body. *)
Lemma written_price st p b it :
  valid b →
  (post b st).2 = {| status := 201; payload := JItem it |}
  ∨ (put p b st).2 = {| status := 200; payload := JItem it |} →
  price it = get "price" (sanitize b).
Proof.
  assert (∀ (v : value) x, JItem x = JItem it → price x = v → price it = v)
    as Hsame.
  { by intros v x [= ->]. }
  intros Hv [H|H].
  - rewrite post_valid in H by done.
    destruct (create_valid b st Hv) as (n & d & _ & _ & Hc).
    rewrite Hc in H. clear Hc.
    apply (f_equal payload) in H. cbn [payload snd] in H.
    apply (Hsame _ _ H). reflexivity.
  - rewrite put_valid in H by done.
    destruct (list_find (has_id (Number p)) (menu st)) as [[idx old]|] eqn:Hf.
    + destruct (update_valid p b st idx old Hv Hf) as (n & d & _ & _ & Hc).
      rewrite Hc in H. clear Hc.
      apply (f_equal payload) in H. cbn [payload snd] in H.
      apply (Hsame _ _ H). reflexivity.
    + by rewrite update_unknown in H.
Qed.

(** X2.  The item a create answers with 201, or an update with 200, has
    a price that is a number above 0; if the payload's price was an
    array, it is the array of such numbers. *)
Theorem written_price_positive st p b it :
  (post b st).2 = {| status := 201; payload := JItem it |}
  ∨ (put p b st).2 = {| status := 200; payload := JItem it |} →
  match get "price" b with
  | VArr _ =>
      ∃ ns, price it = VArr (VNum <$> ns)
            ∧ Forall (λ n, greater n (of_Z 0) = true) ns
  | _ => ∃ n, price it = VNum n ∧ greater n (of_Z 0) = true
  end.
Proof.
  intros H.
  assert (valid b) as Hv.
  { destruct (decide (valid b)) as [|Hn]; [done|]. exfalso.
    destruct H as [H|H].
    - destruct (post_invalid b st Hn) as [He|(errs & _ & He)];
        by rewrite He in H.
    - destruct (put_invalid p b st Hn) as [He|(errs & _ & He)];
        by rewrite He in H. }
  rewrite (written_price st p b it Hv H). by apply valid_price.
Qed.

Lemma written_price_positive_witness :
  ∃ it, (post veggie_wrap seed).2 = {| status := 201; payload := JItem it |}
        ∧ ∃ n, price it = VNum n ∧ greater n (of_Z 0) = true.
Proof.
  eexists. split; [vm_compute; reflexivity|].
  refine (written_price_positive seed "1" veggie_wrap _ (or_introl _)).
  vm_compute. reflexivity.
Defined.

End accepted.

(** ** Responses of the routes *)

Section responses.
Import JS ExpressValidator Server.
Implicit Types (b : gmap string value) (st : state) (p : string).

(** The create handler reads the six validated fields and nothing else. *)
Lemma create_agree b1 b2 st :
  (∀ k, k ∈ field <$> menuValidators → get k b1 = get k b2) →
  create b1 st = create b2 st.
Proof.
  intros Hag. unfold create.
  assert (∀ k, bool_decide (k ∈ field <$> menuValidators) = true →
               get k b1 = get k b2) as H.
  { intros k Hk. apply Hag. by eapply bool_decide_eq_true_1. }
  by rewrite !(H "name"), !(H "description"), !(H "price"),
    !(H "category"), !(H "ingredients"), !(H "available")
    by (vm_compute; reflexivity).
Qed.

(** X3.  Create and update depend on the body through the six validated
    fields only: two bodies that agree on them get the same response
    and leave the same state, so any other field is dropped. *)
Theorem unread_fields_ignored st p b1 b2 :
  (∀ k, k ∈ ["name"; "description"; "price"; "category"; "ingredients";
             "available"] → get k b1 = get k b2) →
  post b1 st = post b2 st ∧ put p b1 st = put p b2 st.
Proof.
  intros Hag. split; [|by apply put_agree].
  rewrite !post_eq, (validation_agree b1 b2) by done.
  destruct (validation b2) as [errs|]; [|done].
  destruct (handleValidation _); [done|].
  apply create_agree. intros k Hk. by apply sanitize_agree.
Qed.

Lemma unread_fields_ignored_witness :
  post (<["id" := VNum (Dec 7 0)]> veggie_wrap) seed = post veggie_wrap seed
  ∧ put "1" (<["id" := VNum (Dec 7 0)]> veggie_wrap) seed
    = put "1" veggie_wrap seed.
Proof.
  apply (unread_fields_ignored seed "1").
  intros k Hk. rewrite get_insert, decide_False; [reflexivity|].
  intros ->. revert Hk. apply (bool_decide_unpack _). vm_compute. exact I.
Defined.


(** X5.  A request answered 400 or 404 changes nothing: neither the
    collection nor the id counter. *)
Theorem rejected_request_no_effect r st :
  status (handle r st).2 ∈ [400; 404] → (handle r st).1 = st.
Proof.
  assert (∀ z, z ∈ [400; 404] → z ≠ 200 ∧ z ≠ 201) as Hne.
  { intros z Hz. repeat (apply elem_of_cons in Hz as [->|Hz]); [done..|].
    by apply elem_of_nil in Hz. }
  destruct r as [|p|b|p b|p| |]; cbn.
  - done.
  - intros _. apply get_by_id_state.
  - destruct (decide (valid b)) as [Hv|Hv].
    + rewrite post_valid by done.
      destruct (create_valid b st Hv) as (n & d & _ & _ & ->). cbn.
      by intros [_ ?]%Hne.
    + by destruct (post_invalid b st Hv) as [->|(errs & _ & ->)].
  - destruct (decide (valid b)) as [Hv|Hv].
    + rewrite put_valid by done.
      destruct (list_find (has_id (Number p)) (menu st)) as [[idx old]|] eqn:Hf.
      * destruct (update_valid p b st idx old Hv Hf) as (n & d & _ & _ & ->).
        cbn. by intros [? _]%Hne.
      * by rewrite update_unknown.
    + by destruct (put_invalid p b st Hv) as [->|(errs & _ & ->)].
  - unfold delete_by_id, delete_item.
    destruct (list_find _ _) as [[i m]|]; cbn; [|done].
    by intros [? _]%Hne.
  - done.
  - done.
Qed.

Lemma rejected_request_no_effect_witness :
  (handle (PUT_menu_id "999" veggie_wrap) seed).1 = seed.
Proof.
  apply (rejected_request_no_effect (PUT_menu_id "999" veggie_wrap) seed).
  apply (bool_decide_unpack _). vm_compute. exact I.
Defined.

(** Every error names the field of a chain. *)
Lemma errors_paths b errs :
  validation b = Some errs →
  Forall (λ e, path e ∈ field <$> menuValidators) errs.
Proof.
  intros ->%validation_Some.
  apply Forall_forall. intros e He. apply list_elem_of_In in He.
  apply in_flat_map in He as (c & Hc & He).
  apply in_map_iff in He as (m & <- & _). cbn [path].
  apply list_elem_of_fmap_2. by apply list_elem_of_In.
Qed.

(** X6.  A body for which validation reports errors gets the same
    answer from POST and from PUT, whatever the state and the path id:
    400 with the errors, a non-empty list whose entries name validated
    fields; the state is unchanged. *)
Theorem invalid_body_rejected st st' p b e es :
  validation b = Some (e :: es) →
  ∃ errs,
    errs = map (λ e, (path e, msg e)) (e :: es)
    ∧ errs ≠ []
    ∧ Forall (λ e, e.1 ∈ ["name"; "description"; "price"; "category";
                          "ingredients"; "available"]) errs
    ∧ post b st = (st, {| status := 400; payload := JErrors errs |})
    ∧ put p b st' = (st', {| status := 400; payload := JErrors errs |}).
Proof.
  intros He. pose proof (errors_paths b _ He) as Hp.
  rewrite post_eq, put_eq, He.
  cbn [handleValidation]. eexists. split_and!; [done|done| |done|done].
  change (map ?f ?l) with (f <$> l).
  rewrite Forall_fmap. eapply Forall_impl; [exact Hp|]. by intros [f m] Hf.
Qed.

Lemma invalid_body_rejected_witness :
  ∃ errs,
    errs = [("price", "price required");
            ("price", "price must be number > 0")]
    ∧ errs ≠ []
    ∧ Forall (λ e, e.1 ∈ ["name"; "description"; "price"; "category";
                          "ingredients"; "available"]) errs
    ∧ post (delete "price" veggie_wrap) seed =
        (seed, {| status := 400; payload := JErrors errs |})
    ∧ put "1" (delete "price" veggie_wrap) seed =
        (seed, {| status := 400; payload := JErrors errs |}).
Proof.
  apply (invalid_body_rejected seed seed "1" (delete "price" veggie_wrap)
           {| path := "price"; msg := "price required" |}
           [{| path := "price"; msg := "price must be number > 0" |}]).
  vm_compute. reflexivity.
Defined.

(** X7.  When a required field is missing and no validator throws, the
    error list of the 400 contains the entry that names the field with
    the message "<field> required". *)
Theorem missing_field_reported st b f :
  f ∈ required → b !! f = None → validation b ≠ None →
  ∃ errs, post b st = (st, {| status := 400; payload := JErrors errs |})
          ∧ (f, f +:+ " required") ∈ errs.
Proof.
  intros Hf Hb Hran. rewrite post_eq.
  destruct (validation b) as [errs|] eqn:E; [|done].
  pose proof (missing_reported b f errs Hf Hb E) as Hin.
  destruct errs as [|e es]; [by apply elem_of_nil in Hin|].
  cbn [handleValidation]. eexists. split; [done|].
  by apply (list_elem_of_fmap_2 (λ e, (path e, msg e))) in Hin.
Qed.

Lemma missing_field_reported_witness :
  ∃ errs, post (delete "price" veggie_wrap) seed =
            (seed, {| status := 400; payload := JErrors errs |})
          ∧ ("price", "price" +:+ " required") ∈ errs.
Proof.
  apply (missing_field_reported seed (delete "price" veggie_wrap) "price").
  - apply (bool_decide_unpack _). vm_compute. exact I.
  - vm_compute. reflexivity.
  - vm_compute. discriminate.
Defined.



End responses.

(** ** The collection across requests *)

Section collection.
Import JS ExpressValidator Server.
Implicit Types (b : gmap string value) (st : state) (p : string) (l : list item).

(** *** Trimmed names *)

Lemma trimStart_head s :
  match trimStart s with
  | String c _ => is_white_space c = false
  | EmptyString => True
  end.
Proof.
  induction s as [|c s IH]; [done|]. cbn.
  by destruct (is_white_space c) eqn:Hc.
Qed.

Lemma trimStart_id c s :
  is_white_space c = false → trimStart (String c s) = String c s.
Proof. cbn. by intros ->. Qed.

Lemma trimEnd_cons c s :
  trimEnd (String c s) =
  match trimEnd s with
  | EmptyString => if is_white_space c then EmptyString else String c EmptyString
  | t => String c t
  end.
Proof. done. Qed.

Lemma trimEnd_idemp s : trimEnd (trimEnd s) = trimEnd s.
Proof.
  induction s as [|c s IH]; [done|]. rewrite trimEnd_cons.
  destruct (trimEnd s) as [|c' t] eqn:E.
  - destruct (is_white_space c) eqn:Hc; [done|]. cbn. by rewrite Hc.
  - by rewrite trimEnd_cons, IH.
Qed.

Lemma trimEnd_head c s :
  is_white_space c = false → ∃ t, trimEnd (String c s) = String c t.
Proof. intros Hc. cbn. destruct (trimEnd s); rewrite ?Hc; eauto. Qed.

Lemma trim_idemp s : trim (trim s) = trim s.
Proof.
  unfold trim. pose proof (trimStart_head s) as Hh.
  destruct (trimStart s) as [|c t] eqn:E; [done|].
  destruct (trimEnd_head c t Hh) as [t' Ht']. rewrite Ht'.
  rewrite (trimStart_id c t' Hh), <- Ht'. apply trimEnd_idemp.
Qed.

(** A property that the seed items have, and that every item written by
    a valid create or update has, holds of all stored items. *)
Lemma stored_items_ind (P : item → Prop) :
  Forall P (menu seed) →
  (∀ b n d i a,
     valid b → get "name" b = VStr n → get "description" b = VStr d →
     P {| id := i; name := trim n; description := trim d;
          price := get "price" (sanitize b);
          category := get "category" b;
          ingredients := get "ingredients" b;
          available := a |}) →
  ∀ rs, Forall P (menu (run_requests rs seed).1).
Proof.
  intros Hseed Hnew.
  assert (∀ r st, Forall P (menu st) → Forall P (menu (handle r st).1))
    as Hstep.
  { intros r st Hall. destruct r as [|p|b|p b|p| |]; cbn.
    - done.
    - by rewrite (proj1 (get_by_id_state p st)).
    - destruct (decide (valid b)) as [Hv|Hv].
      + rewrite post_valid by done.
        destruct (create_valid b st Hv) as (n & d & Hn & Hd & ->). cbn.
        apply Forall_app. split; [done|]. constructor; [|done].
        by apply Hnew.
      + by destruct (post_invalid b st Hv) as [->|(errs & _ & ->)].
    - destruct (decide (valid b)) as [Hv|Hv].
      + rewrite put_valid by done.
        destruct (list_find (has_id (Number p)) (menu st))
          as [[idx old]|] eqn:Hf.
        * destruct (update_valid p b st idx old Hv Hf)
            as (n & d & Hn & Hd & ->).
          cbn. apply Forall_insert; [done|]. by apply Hnew.
        * by rewrite update_unknown.
      + by destruct (put_invalid p b st Hv) as [->|(errs & _ & ->)].
    - unfold delete_by_id, delete_item.
      destruct (list_find _ _) as [[idx old]|]; cbn; [|done].
      by apply Forall_delete.
    - done.
    - done. }
  assert (∀ rs st, Forall P (menu st) →
            Forall P (menu (run_requests rs st).1)) as Hrun.
  { induction rs as [|r rs IH]; intros st Hst; [done|]. cbn.
    pose proof (Hstep r st Hst) as H1.
    destruct (handle r st) as [st1 resp]. specialize (IH st1 H1).
    by destruct (run_requests rs st1). }
  intros rs. by apply Hrun.
Qed.

(** X8.  After any sequence of requests, every stored name and
    description is trimmed: it has no white space at either end. *)
Theorem stored_names_trimmed rs :
  Forall (λ m, trim (name m) = name m ∧ trim (description m) = description m)
         (menu (run_requests rs seed).1).
Proof.
  apply stored_items_ind.
  - cbn. repeat constructor; by vm_compute.
  - intros b n d i a _ _ _. cbn. split; apply trim_idemp.
Qed.

(** *** Order of the listing *)




(** *** Lookup *)

(** In a reachable state the lookup finds a stored item by its id. *)
Lemma reachable_find rs p it :
  it ∈ menu (run_requests rs seed).1 → has_id (Number p) it →
  ∃ i, menu (run_requests rs seed).1 !! i = Some it
       ∧ list_find (has_id (Number p)) (menu (run_requests rs seed).1)
         = Some (i, it).
Proof.
  intros [i Hi]%list_elem_of_lookup Hp. exists i. split; [done|].
  pose proof (reachable_invariant rs) as [Hnd _].
  by apply find_unique.
Qed.

(** X10.  After any sequence of requests, GET /api/menu/:id answers 200
    with an item exactly when that item is stored and has the id of the
    path, and answers 404 exactly when no stored item has it. *)
Theorem get_by_id_found_iff rs p it :
  let st := (run_requests rs seed).1 in
  (get_by_id p st = (st, {| status := 200; payload := JItem it |})
   ↔ it ∈ menu st ∧ has_id (Number p) it)
  ∧ (get_by_id p st = (st, not_found)
     ↔ ∀ m, m ∈ menu st → ¬ has_id (Number p) m).
Proof.
  intros st. split; split.
  - unfold get_by_id, get_item.
    destruct (list_find _ _) as [[i m]|] eqn:Hf; [|done].
    intros H.
    assert (m = it) as ->.
    { apply (f_equal (λ x, payload x.2)) in H. cbn in H. congruence. }
    apply find_has_id in Hf as [Hi Hm]. split; [|done].
    by eapply list_elem_of_lookup_2.
  - intros [Hin Hp]. destruct (reachable_find rs p it Hin Hp) as (i & _ & Hf).
    unfold get_by_id, get_item. fold st in Hf. by rewrite Hf.
  - unfold get_by_id, get_item.
    destruct (list_find _ _) as [[i m]|] eqn:Hf; [done|].
    intros _. by apply find_None_iff.
  - intros Hno%find_None_iff. unfold get_by_id, get_item. by rewrite Hno.
Qed.

(** X11.  After any sequence of requests, every stored item is returned
    by a GET whose path carries the decimal numeral of its id. *)
Theorem stored_item_fetched_by_id rs it :
  let st := (run_requests rs seed).1 in
  it ∈ menu st →
  get_by_id (numeral (id it)) st =
    (st, {| status := 200; payload := JItem it |}).
Proof.
  intros st Hin.
  pose proof (reachable_addressable rs it Hin) as Hp.
  destruct (reachable_find rs _ it Hin Hp) as (i & _ & Hf).
  unfold get_by_id, get_item. fold st in Hf. by rewrite Hf.
Qed.

Lemma stored_item_fetched_by_id_witness :
  ∃ it, it ∈ menu seed
        ∧ get_by_id (numeral (id it)) seed =
            (seed, {| status := 200; payload := JItem it |}).
Proof.
  eexists. split; [|apply (stored_item_fetched_by_id [])].
  - cbn. right. left.
  - cbn. right. left.
Defined.

(** *** Update and delete of a stored item *)

(** A valid update of a stored id, as the handler performs it. *)
Lemma put_stored rs p b it :
  let st := (run_requests rs seed).1 in
  valid b → it ∈ menu st → has_id (Number p) it →
  ∃ i n d,
    menu st !! i = Some it
    ∧ get "name" b = VStr n ∧ get "description" b = VStr d
    ∧ put p b st =
        let updated :=
          {| id := id it; name := trim n; description := trim d;
             price := get "price" (sanitize b);
             category := get "category" b;
             ingredients := get "ingredients" b;
             available := match get "available" (sanitize b) with
                          | VBool a => a
                          | _ => available it
                          end |} in
        ({| menu := <[i := updated]> (menu st); nextId := nextId st |},
         {| status := 200; payload := JItem updated |}).
Proof.
  intros st Hv Hin Hp.
  destruct (reachable_find rs p it Hin Hp) as (i & Hi & Hf).
  fold st in Hi, Hf.
  destruct (update_valid p b st i it Hv Hf) as (n & d & Hn & Hd & Hu).
  exists i, n, d. split_and!; [done..|]. by rewrite put_valid.
Qed.

(** X12.  After any sequence of requests, a valid update of a stored id
    replaces that item where it stands and touches nothing else: the
    items before and after it, the length and the counter are as they
    were.  The new item keeps the id, takes the trimmed name and
    description and the category and ingredients of the body, and its
    [available] is the stored one when the body's is absent or an
    array, else the body's boolean (coerced by [toBoolean] if need be). *)
Theorem update_in_place rs p b it :
  let st := (run_requests rs seed).1 in
  valid b → it ∈ menu st → has_id (Number p) it →
  ∃ l1 l2 upd n d,
    menu st = l1 ++ it :: l2
    ∧ put p b st =
        ({| menu := l1 ++ upd :: l2; nextId := nextId st |},
         {| status := 200; payload := JItem upd |})
    ∧ id upd = id it
    ∧ get "name" b = VStr n ∧ name upd = trim n
    ∧ get "description" b = VStr d ∧ description upd = trim d
    ∧ category upd = get "category" b
    ∧ ingredients upd = get "ingredients" b
    ∧ match get "available" b with
      | VUndefined | VArr _ => available upd = available it
      | VBool a => available upd = a
      | v => ∃ s, toString v = Some s
               ∧ available upd = Validator.toBoolean s
      end.
Proof.
  intros st Hv Hin Hp.
  assert (validation b ≠ None) as Hran by (unfold valid in Hv; by rewrite Hv).
  pose proof (sanitize_available b Hran) as Hs.
  destruct (put_stored rs p b it Hv Hin Hp)
    as (i & n & d & Hi & Hn & Hd & Hput).
  fold st in Hi, Hput.
  exists (take i (menu st)), (drop (S i) (menu st)). eexists. exists n, d.
  split_and!.
  - by rewrite take_drop_middle.
  - rewrite Hput. cbn zeta. rewrite insert_take_drop; [done|].
    by eapply lookup_lt_Some.
  - done.
  - done.
  - done.
  - done.
  - done.
  - done.
  - done.
  - cbn [available].
    destruct (get "available" b) as [| |a| | | |].
    + by rewrite Hs.
    + destruct Hs as (t & Hs & ->). by exists t.
    + destruct Hs as (t & Hs & ->). destruct a; cbn in Hs; by simplify_eq.
    + destruct Hs as (t & Hs & ->). by exists t.
    + destruct Hs as (t & Hs & ->). by exists t.
    + by destruct Hs as (strs & _ & ->).
    + destruct Hs as (t & Hs & ->). by exists t.
Qed.

Lemma update_in_place_witness :
  ∃ it, it ∈ menu seed ∧
  ∃ l1 l2 upd n d,
    menu seed = l1 ++ it :: l2
    ∧ put "2" veggie_wrap seed =
        ({| menu := l1 ++ upd :: l2; nextId := nextId seed |},
         {| status := 200; payload := JItem upd |})
    ∧ id upd = id it
    ∧ get "name" veggie_wrap = VStr n ∧ name upd = trim n
    ∧ get "description" veggie_wrap = VStr d ∧ description upd = trim d
    ∧ category upd = get "category" veggie_wrap
    ∧ ingredients upd = get "ingredients" veggie_wrap
    ∧ match get "available" veggie_wrap with
      | VUndefined | VArr _ => available upd = available it
      | VBool a => available upd = a
      | v => ∃ s, toString v = Some s
               ∧ available upd = Validator.toBoolean s
      end.
Proof.
  eexists. split; [|apply (update_in_place [] "2" veggie_wrap)].
  - cbn. right. left.
  - vm_compute. reflexivity.
  - cbn. right. left.
  - vm_compute. reflexivity.
Defined.

(** X13.  After any sequence of requests, a valid update of a stored id
    followed by a GET of the same path returns the item the update
    returned; the update changes neither the number of items nor the
    counter. *)
Theorem update_then_get rs p b it :
  let st := (run_requests rs seed).1 in
  valid b → it ∈ menu st → has_id (Number p) it →
  ∃ upd st',
    put p b st = (st', {| status := 200; payload := JItem upd |})
    ∧ get_by_id p st' = (st', {| status := 200; payload := JItem upd |})
    ∧ List.length (menu st') = List.length (menu st)
    ∧ nextId st' = nextId st.
Proof.
  intros st Hv Hin Hp.
  destruct (put_stored rs p b it Hv Hin Hp)
    as (i & n & d & Hi & Hn & Hd & Hput).
  fold st in Hi, Hput. rewrite Hput. cbn zeta. eexists _, _.
  split_and!; [done| |cbn; by rewrite length_insert|done].
  unfold get_by_id, get_item. cbn [menu].
  pose proof (reachable_invariant rs) as [Hnd _]. fold st in Hnd.
  erewrite find_unique; [done| | |done].
  - by rewrite (ids_insert _ _ it).
  - apply list_lookup_insert_eq. by eapply lookup_lt_Some.
Qed.

Lemma update_then_get_witness :
  ∃ upd st',
    put "2" veggie_wrap seed = (st', {| status := 200; payload := JItem upd |})
    ∧ get_by_id "2" st' = (st', {| status := 200; payload := JItem upd |})
    ∧ List.length (menu st') = List.length (menu seed)
    ∧ nextId st' = nextId seed.
Proof.
  assert (∃ it, it ∈ menu seed ∧ has_id (Number "2") it) as (it & Hin & Hp).
  { eexists. split; [cbn; right; left|]. vm_compute. reflexivity. }
  apply (update_then_get [] "2" veggie_wrap it); [|exact Hin|exact Hp].
  vm_compute. reflexivity.
Defined.

(** X14.  After any sequence of requests, deleting a stored id shortens
    the collection by one and leaves the counter alone, so the id is
    not handed out again; a GET of the same path then answers 404, and
    so does the update handler for any body. *)
Theorem delete_then_not_found rs p b it :
  let st := (run_requests rs seed).1 in
  it ∈ menu st → has_id (Number p) it →
  let st' := (delete_by_id p st).1 in
  S (List.length (menu st')) = List.length (menu st)
  ∧ nextId st' = nextId st
  ∧ get_by_id p st' = (st', not_found)
  ∧ update p b st' = (st', not_found).
Proof.
  intros st Hin Hp. destruct (reachable_find rs p it Hin Hp) as (i & Hi & Hf).
  fold st in Hi, Hf. unfold delete_by_id, delete_item. rewrite Hf. cbn.
  assert (list_find (has_id (Number p)) (delete i (menu st)) = None) as Hnone.
  { apply find_None_iff. intros m [j Hj]%list_elem_of_lookup Hm.
    pose proof (reachable_invariant rs) as [Hnd _]. fold st in Hnd.
    pose proof (has_id_same _ _ _ Hp Hm) as Heq.
    rewrite list_lookup_delete in Hj.
    assert (i = if decide (j < i)%nat then j else S j) as Hij.
    { eapply NoDup_lookup; [exact Hnd| |]; unfold ids; rewrite list_lookup_fmap.
      - by rewrite Hi.
      - rewrite Hj. cbn. by rewrite Heq. }
    case_decide; lia. }
  split_and!.
  - rewrite length_delete by eauto. apply lookup_lt_Some in Hi. cbn. lia.
  - done.
  - unfold get_by_id, get_item. cbn [menu]. by rewrite Hnone.
  - unfold update, update_item. cbn [menu]. by rewrite Hnone.
Qed.

Lemma delete_then_not_found_witness :
  S (List.length (menu (delete_by_id "1" seed).1)) = List.length (menu seed)
  ∧ nextId (delete_by_id "1" seed).1 = nextId seed
  ∧ get_by_id "1" (delete_by_id "1" seed).1
    = ((delete_by_id "1" seed).1, not_found)
  ∧ update "1" veggie_wrap (delete_by_id "1" seed).1
    = ((delete_by_id "1" seed).1, not_found).
Proof.
  assert (∃ it, it ∈ menu seed ∧ has_id (Number "1") it) as (it & Hin & Hp).
  { eexists. split; [cbn; left|]. vm_compute. reflexivity. }
  exact (delete_then_not_found [] "1" veggie_wrap it Hin Hp).
Defined.

End collection.
